(** * go-mvcc: a shallow embedding of [main.go] and its checked properties

    The development follows the source top to bottom: the data types
    ([Value], [Transaction], [Database], [Connection]), the database
    methods ([newDatabase], [inProgress], [newTransaction],
    [completeTransaction], [assertValidTransaction]) and the command
    interpreter [execCommand].  Go's [uint64] is [N] with the wrap-around of
    [+= 1] written out; [map[string][]Value] is a [gmap string (list Value)];
    [btree.Map] and [btree.Set] are [gmap] and [gset]; a panic is an explicit
    outcome that carries the state reached when it was raised.  Two
    functions the source calls have no body in it and are parameters:
    [isVisible], and the Unicode case of [strings.ToLower]. *)

From stdpp Require Import gmap strings list fin_maps pretty.

Local Open Scope N_scope.

(** ** Data model *)

(** [type Value struct { txStartID, txEndID uint64; value string }] *)
Record Value := mkValue {
  txStartID : N;
  txEndID : N;
  value : string;
}.

(** [type TransactionState uint8], in [iota] order. *)
Inductive TransactionState :=
| InProgressTransaction
| AbortedTransaction
| CommittedTransaction.

(** [type IsolationLevel uint8], in increasing strictness. *)
Inductive IsolationLevel :=
| ReadUncommittedIsolation
| ReadCommittedIsolation
| RepeatableReadIsolation
| SnapshotIsolation
| SerializableIsolation.

#[global] Instance TransactionState_eq_dec : EqDecision TransactionState.
Proof. solve_decision. Defined.

#[global] Instance IsolationLevel_eq_dec : EqDecision IsolationLevel.
Proof. solve_decision. Defined.

(** The numeric value of an isolation level, for the order between levels. *)
Definition IsolationLevel_rank (l : IsolationLevel) : N :=
  match l with
  | ReadUncommittedIsolation => 0
  | ReadCommittedIsolation => 1
  | RepeatableReadIsolation => 2
  | SnapshotIsolation => 3
  | SerializableIsolation => 4
  end.

(** [type Transaction struct] *)
Record Transaction := mkTransaction {
  id : N;
  isolation : IsolationLevel;
  state : TransactionState;
  inProgress : gset N;
  writeset : gset string;
  readset : gset string;
}.

(** [type Database struct] *)
Record Database := mkDatabase {
  defaultIsolation : IsolationLevel;
  store : gmap string (list Value);
  transactions : gmap N Transaction;
  nextTransactionID : N;
}.

(** [type Connection struct { tx *Transaction; db *Database }].  The
    transaction a connection points to is the object allocated by its own
    [begin]; the transaction table holds copies of it (by value), so the two
    are separate objects.  The database is shared by all connections: it is
    threaded through [execCommand] and handed from one connection to the
    next by [System] below. *)
Record Connection := mkConnection {
  tx : option Transaction;
  db : Database;
}.

(** Field updates, as the assignments of the source. *)
Definition set_state (s : TransactionState) (t : Transaction) : Transaction :=
  mkTransaction (id t) (isolation t) s (inProgress t) (writeset t) (readset t).

Definition set_inProgress (ids : gset N) (t : Transaction) : Transaction :=
  mkTransaction (id t) (isolation t) (state t) ids (writeset t) (readset t).

Definition insert_readset (key : string) (t : Transaction) : Transaction :=
  mkTransaction (id t) (isolation t) (state t) (inProgress t) (writeset t)
    ({[key]} ∪ readset t).

Definition insert_writeset (key : string) (t : Transaction) : Transaction :=
  mkTransaction (id t) (isolation t) (state t) (inProgress t)
    ({[key]} ∪ writeset t) (readset t).

Definition set_txEndID (e : N) (v : Value) : Value :=
  mkValue (txStartID v) e (value v).

Definition set_store (s : gmap string (list Value)) (d : Database) : Database :=
  mkDatabase (defaultIsolation d) s (transactions d) (nextTransactionID d).

Definition set_transactions (ts : gmap N Transaction) (d : Database) : Database :=
  mkDatabase (defaultIsolation d) (store d) ts (nextTransactionID d).

Definition set_nextTransactionID (n : N) (d : Database) : Database :=
  mkDatabase (defaultIsolation d) (store d) (transactions d) n.

Definition set_defaultIsolation (l : IsolationLevel) (d : Database) : Database :=
  mkDatabase l (store d) (transactions d) (nextTransactionID d).

(** ** Results of a call *)

(** The ways a call can panic.  The message of [assertEq] formats its two
    operands with [%v]; only its prefix is kept. *)
Inductive Panic :=
| AssertFailed (msg : string)
| AssertEqFailed (prefix : string)
| NilDereference
| IndexOutOfRange.

(** What [execCommand] hands back: the pair [(string, error)] or a panic. *)
Inductive Outcome :=
| Returned (res : string) (err : option string)
| Panicked (p : Panic).

(** ** Strings *)

(** [strings.ToLower].  The library function looks at the bytes first: on
    a string of ASCII bytes only it folds the letters A-Z, byte by byte;
    on any other string it returns [strings.Map(unicode.ToLower, s)].  The
    Unicode tables behind that second case are not part of this
    repository, so it is the parameter [unicodeLower]. *)
Definition lower_ascii (a : Ascii.ascii) : Ascii.ascii :=
  let n := Ascii.N_of_ascii a in
  if (65 <=? n) && (n <=? 90) then Ascii.ascii_of_N (n + 32) else a.

Fixpoint ToLower_ascii (s : string) : string :=
  match s with
  | EmptyString => EmptyString
  | String a s' => String (lower_ascii a) (ToLower_ascii s')
  end.

(** Every byte is below [utf8.RuneSelf] (0x80). *)
Fixpoint isASCII (s : string) : bool :=
  match s with
  | EmptyString => true
  | String a s' => (Ascii.N_of_ascii a <? 128) && isASCII s'
  end.

Section Lowering.

(** [strings.Map(unicode.ToLower, s)] *)
Variable unicodeLower : string → string.

Definition ToLower (s : string) : string :=
  if isASCII s then ToLower_ascii s else unicodeLower s.

End Lowering.

(** On a valid UTF-8 string that has no upper-case letter the Unicode
    mapping changes nothing.  The example runs below use it as it is on
    such strings; their commands are ASCII, so it is never consulted. *)
Definition unicodeLower_id (s : string) : string := s.

(** [fmt.Sprintf("%d", n)] for a [uint64]. *)
Definition Sprintf_d (n : N) : string := pretty n.

(** [fmt.Errorf("delete failed: key %q not found")]: the verb has no operand,
    so [fmt] prints the missing-operand marker in its place. *)
Definition delete_failed_error : string :=
  "delete failed: key %!q(MISSING) not found".

Definition unimplemented_error : string := "command unimplemented".

(** ** Database methods *)

(** [uint64] arithmetic wraps around. *)
Definition uint64_incr (n : N) : N := (n + 1) mod 2 ^ 64.

Definition newDatabase : Database :=
  mkDatabase ReadCommittedIsolation ∅ ∅ 1.

(** [func (d *Database) inProgress() btree.Set[uint64]]: the loop over the
    table inserts the key of every entry whose state is in progress. *)
Definition Database_inProgress (d : Database) : gset N :=
  foldr (λ kv ids, if decide (state kv.2 = InProgressTransaction)
                   then {[kv.1]} ∪ ids else ids)
        ∅ (map_to_list (transactions d)).

(** [func (d *Database) newTransaction() *Transaction] *)
Definition newTransaction (d : Database) : Transaction * Database :=
  let t := mkTransaction (nextTransactionID d) (defaultIsolation d)
             InProgressTransaction ∅ ∅ ∅ in
  let t := set_inProgress (Database_inProgress d) t in
  let d := set_nextTransactionID (uint64_incr (nextTransactionID d)) d in
  let d := set_transactions (<[id t := t]> (transactions d)) d in
  (t, d).

(** [func (d *Database) completeTransaction(t *Transaction, state)]: the
    connection's transaction gets the state and the table a copy of it; the
    returned error is always [nil]. *)
Definition completeTransaction (d : Database) (t : Transaction)
    (s : TransactionState) : Transaction * Database :=
  let t := set_state s t in
  (t, set_transactions (<[id t := t]> (transactions d)) d).

(** [func (d *Database) transactionState(txID uint64) Transaction] *)
Definition transactionState (d : Database) (txID : N) : Panic + Transaction :=
  match transactions d !! txID with
  | Some t => inr t
  | None => inl (AssertFailed "valid transacation")
  end.

(** [func (d *Database) assertValidTransaction(t *Transaction)]: the panic
    of the first assertion that fails, or, when both pass, the transaction
    behind the pointer.  Reading [t.id] through a nil pointer panics. *)
Definition assertValidTransaction (d : Database) (t : option Transaction)
    : Panic + Transaction :=
  match t with
  | None => inl NilDereference
  | Some t =>
    if decide (0 < id t) then
      match transactionState d (id t) with
      | inl p => inl p
      | inr t' =>
        if decide (state t' = InProgressTransaction) then inr t
        else inl (AssertFailed "in progress transaction")
      end
    else inl (AssertFailed "valid id")
  end.

Arguments assertValidTransaction : simpl never.

(** [c.db.store[key] = append(c.db.store[key], v)] *)
Definition appended (key : string) (v : Value) (d : Database) : Database :=
  set_store (<[key := (store d !!! key) ++ [v]]> (store d)) d.

(** ** The command interpreter *)

Section Interpreter.

(** The Unicode case of [strings.ToLower], see [ToLower]. *)
Variable unicodeLower : string → string.

(** [func (d *Database) isVisible(t *Transaction, value Value) bool] is
    called by [execCommand] and has no body in the source (the source
    marks it as still to be written).  It is a parameter here, taken to be
    a function of the database, the transaction and the version that
    changes neither; every theorem of the section holds for every such
    function. *)
Variable isVisible : Database → Transaction → Value → bool.

(** The loop of [get]:
    [for i := len(c.db.store[key]) - 1; i > 0; i-- { ... }],
    started at [i]; [Some v] when the loop returns [v], [None] when it
    runs to its end. *)
Fixpoint get_loop (d : Database) (t : Transaction) (key : string) (i : nat)
    : option string :=
  match i with
  | O => None
  | S j =>
    match (store d !!! key) !! i with
    | Some v =>
      if isVisible d t v then Some (value v) else get_loop d t key j
    | None => None
    end
  end.

(** [value.txEndID = c.tx.id] through the pointer [&c.db.store[key][i]]. *)
Definition stamp (d : Database) (key : string) (i : nat) (e : N) : Database :=
  set_store (<[key := alter (set_txEndID e) i (store d !!! key)]> (store d)) d.

(** The loop of [set] and [delete]:
    [for i := len(c.db.store[key]) - 1; i >= 0; i-- { ... }],
    with [n = i + 1] iterations left; it returns the database and [found]. *)
Fixpoint close_loop (t : Transaction) (key : string) (n : nat)
    (d : Database) (found : bool) : Database * bool :=
  match n with
  | O => (d, found)
  | S i =>
    match (store d !!! key) !! i with
    | Some v =>
      if isVisible d t v
      then close_loop t key i (stamp d key i (id t)) true
      else close_loop t key i d found
    | None => (d, found)
    end
  end.

(** The part of [execCommand] from [if command == "set" || ...] to the end
    of the function; [command] is already in lower case. *)
Definition exec_write (c : Connection) (command : string)
    (args : list string) : Outcome * Connection :=
  if decide (command = "set" ∨ command = "delete") then
    match assertValidTransaction (db c) (tx c) with
    | inl p => (Panicked p, c)
    | inr t =>
      match args !! 0%nat with
      | None => (Panicked IndexOutOfRange, c)
      | Some key =>
        let '(d, found) :=
          close_loop t key (length (store (db c) !!! key)) (db c) false in
        if bool_decide (command = "delete") && negb found then
          (Returned "" (Some delete_failed_error), mkConnection (Some t) d)
        else
          let t := insert_writeset key t in
          if decide (command = "set") then
            match args !! 1%nat with
            | None => (Panicked IndexOutOfRange, mkConnection (Some t) d)
            | Some v =>
              let d := appended key (mkValue (id t) 0 v) d in
              (Returned v None, mkConnection (Some t) d)
            end
          else (Returned "" None, mkConnection (Some t) d)
      end
    end
  else (Returned "" (Some unimplemented_error), c).

(** [func (c *Connection) execCommand(command string, args []string)
    (string, error)]: the outcome and the connection (with the shared
    database) as the call leaves them. *)
Definition execCommand (c : Connection) (command : string)
    (args : list string) : Outcome * Connection :=
  let command := ToLower unicodeLower command in
  if decide (command = "begin") then
    match tx c with
    | Some _ => (Panicked (AssertEqFailed "no running transactions"), c)
    | None =>
      let '(t, d) := newTransaction (db c) in
      let c := mkConnection (Some t) d in
      match assertValidTransaction (db c) (tx c) with
      | inl p => (Panicked p, c)
      | inr t => (Returned (Sprintf_d (id t)) None, c)
      end
    end
  else if decide (command = "abort") then
    match assertValidTransaction (db c) (tx c) with
    | inl p => (Panicked p, c)
    | inr t =>
      let '(_, d) := completeTransaction (db c) t AbortedTransaction in
      (Returned "" None, mkConnection None d)
    end
  else if decide (command = "commit") then
    match assertValidTransaction (db c) (tx c) with
    | inl p => (Panicked p, c)
    | inr t =>
      let '(_, d) := completeTransaction (db c) t CommittedTransaction in
      (Returned "" None, mkConnection None d)
    end
  else if decide (command = "get") then
    match assertValidTransaction (db c) (tx c) with
    | inl p => (Panicked p, c)
    | inr t =>
      match args !! 0%nat with
      | None => (Panicked IndexOutOfRange, c)
      | Some key =>
        let t := insert_readset key t in
        let c := mkConnection (Some t) (db c) in
        match get_loop (db c) t key (length (store (db c) !!! key) - 1)%nat with
        | Some v => (Returned v None, c)
        | None => exec_write c command args
        end
      end
    end
  else exec_write c command args.

(** *** What a call can do to the connection and the database

    [Effect c command c'] lists the ways [execCommand], called with a command
    whose lower-case form is [command], can leave the connection [c] (and
    the database behind it): one constructor per place where the function
    returns or panics after a mutation. *)
Inductive Effect (c : Connection) : string → Connection → Prop :=
| Effect_none command :
    Effect c command c
| Effect_begin :
    tx c = None →
    Effect c "begin"
      (mkConnection (Some (newTransaction (db c)).1) (newTransaction (db c)).2)
| Effect_complete command t s :
    assertValidTransaction (db c) (tx c) = inr t →
    Effect c command (mkConnection None (completeTransaction (db c) t s).2)
| Effect_get command t key :
    assertValidTransaction (db c) (tx c) = inr t →
    Effect c command (mkConnection (Some (insert_readset key t)) (db c))
| Effect_close command t key :
    assertValidTransaction (db c) (tx c) = inr t →
    Effect c command
      (mkConnection (Some t)
         (close_loop t key (length (store (db c) !!! key)) (db c) false).1)
| Effect_write command t key :
    assertValidTransaction (db c) (tx c) = inr t →
    Effect c command
      (mkConnection (Some (insert_writeset key t))
         (close_loop t key (length (store (db c) !!! key)) (db c) false).1)
| Effect_set command t key v :
    assertValidTransaction (db c) (tx c) = inr t →
    Effect c command
      (mkConnection (Some (insert_writeset key t))
         (appended key (mkValue (id t) 0 v)
            (close_loop t key (length (store (db c) !!! key)) (db c) false).1)).

End Interpreter.

(** ** Several connections on one database *)

(** [func (d *Database) newConnection() *Connection] *)
Definition newConnection (d : Database) : Connection := mkConnection None d.

(** A database with the connections opened on it: connection [n] holds the
    transaction [sys_conns !! n], or none.  Every connection number names a
    connection; one that has not been used yet is as [newConnection] made
    it. *)
Record System := mkSystem {
  sys_db : Database;
  sys_conns : gmap nat Transaction;
}.

(** One call: connection number, command, arguments. *)
Definition Op : Type := nat * string * list string.

Definition initial : System := mkSystem newDatabase ∅.

Section Runs.

Variable unicodeLower : string → string.
Variable isVisible : Database → Transaction → Value → bool.

(** Connection [n] runs one command on the shared database. *)
Definition step (s : System) (o : Op) : Outcome * System :=
  let '(n, command, args) := o in
  let '(out, c) :=
    execCommand unicodeLower isVisible (mkConnection (sys_conns s !! n) (sys_db s))
      command args in
  (out, mkSystem (db c)
          (match tx c with
           | Some t => <[n := t]> (sys_conns s)
           | None => delete n (sys_conns s)
           end)).

(** The system after a sequence of calls.  A call that panics leaves the
    state it had reached, and later calls go on from there. *)
Fixpoint run (s : System) (ops : list Op) : System :=
  match ops with
  | [] => s
  | o :: ops => run (step s o).2 ops
  end.

(** The outcomes of the calls, in order. *)
Fixpoint outcomes (s : System) (ops : list Op) : list Outcome :=
  match ops with
  | [] => []
  | o :: ops => (step s o).1 :: outcomes (step s o).2 ops
  end.


End Runs.

Arguments step : simpl never.

(** ** The visibility rule of the specification *)

(** Modelled from the spec: [isVisible] has no body in the source.  This is
    the specification's [creatorVisible]: a transaction sees its own
    writes; an aborted origin is never visible; an origin in progress is
    visible under read-uncommitted only; a committed origin is visible
    below repeatable-read, and from repeatable-read on unless it was in
    progress when the transaction began.  The specification does not say
    what an origin missing from the table gives; it is not visible here. *)
Definition creatorVisible (d : Database) (t : Transaction) (originId : N)
    : bool :=
  if decide (originId = id t) then true
  else
    match transactions d !! originId with
    | None => false
    | Some origin =>
      match state origin with
      | AbortedTransaction => false
      | InProgressTransaction =>
        bool_decide (isolation t = ReadUncommittedIsolation)
      | CommittedTransaction =>
        if decide (IsolationLevel_rank (isolation t) < 2) then true
        else bool_decide (originId ∉ inProgress t)
      end
    end.

(** Modelled from the spec: the specification's [versionVisible], which
    stands for the [isVisible] the source calls and does not define. *)
Definition versionVisible (d : Database) (t : Transaction) (v : Value)
    : bool :=
  if negb (creatorVisible d t (txStartID v)) then false
  else if decide (txEndID v = 0) then true
  else if decide (txEndID v = id t) then false
  else negb (creatorVisible d t (txEndID v)).

(** ** Vocabulary of the properties *)

(** Every version of [d] is still in [d'], at the same place of the same
    key, with the same creator and payload, and closed if it was closed. *)
Definition versions_kept (d d' : Database) : Prop :=
  ∀ k i v, (store d !!! k) !! i = Some v →
    ∃ v', (store d' !!! k) !! i = Some v' ∧
          txStartID v' = txStartID v ∧ value v' = value v ∧
          (txEndID v ≠ 0 → txEndID v' ≠ 0).

(** The ids of the table are below the counter, which is at least 1. *)
Definition ids_below_next (d : Database) : Prop :=
  1 ≤ nextTransactionID d ∧
  ∀ i, is_Some (transactions d !! i) → i < nextTransactionID d.

(** The database, its table and the connection's transaction are all at
    isolation level [l]. *)
Definition isolation_is (l : IsolationLevel) (c : Connection) : Prop :=
  defaultIsolation (db c) = l ∧
  (∀ i t, transactions (db c) !! i = Some t → isolation t = l) ∧
  (∀ t, tx c = Some t → isolation t = l).

(** The same for a database and all the connections on it. *)
Definition system_isolation_is (l : IsolationLevel) (s : System) : Prop :=
  defaultIsolation (sys_db s) = l ∧
  (∀ i t, transactions (sys_db s) !! i = Some t → isolation t = l) ∧
  (∀ n t, sys_conns s !! n = Some t → isolation t = l).

(** ** Example runs *)

(** A database whose default isolation level has been set to snapshot
    isolation after construction. *)
Definition snapshot_database : Database :=
  set_defaultIsolation SnapshotIsolation newDatabase.

(** Two transactions, both in progress, write the same key and commit one
    after the other. *)
Definition two_writers : list Op :=
  [(0%nat, "begin", []); (1%nat, "begin", []);
   (0%nat, "set", ["x"; "a"]); (1%nat, "set", ["x"; "b"]);
   (0%nat, "commit", []); (1%nat, "commit", [])].

(** A second [begin] on a connection that has a transaction, and a [commit]
    on one that has none. *)
Definition misuse : list Op :=
  [(0%nat, "begin", []); (0%nat, "begin", []); (1%nat, "commit", [])].

(** A transaction that writes a key twice, deletes it and aborts, next to a
    second transaction that begins while the first is in progress. *)
Definition write_delete_abort : list Op :=
  [(0%nat, "begin", []); (0%nat, "set", ["x"; "1"]);
   (0%nat, "set", ["x"; "2"]); (1%nat, "begin", []);
   (0%nat, "delete", ["x"]); (0%nat, "abort", []); (0%nat, "begin", [])].

(** A connection on a new database, after its [begin], and the transaction
    it holds. *)
Definition started : Connection :=
  (execCommand unicodeLower_id versionVisible (newConnection newDatabase) "begin" []).2.

Definition started_tx : Transaction := (newTransaction newDatabase).1.

(** A second connection on the database of [started]. *)
Definition second : Connection := newConnection (db started).

(** The first connection after it has written a key twice and deleted it:
    both versions of the key carry its id as their end id. *)
Definition deleted : Connection :=
  (execCommand unicodeLower_id versionVisible
     (execCommand unicodeLower_id versionVisible
        (execCommand unicodeLower_id versionVisible started "set" ["x"; "1"]).2
        "set" ["x"; "2"]).2
     "delete" ["x"]).2.

Definition deleted_tx : Transaction := insert_writeset "x" started_tx.

(** ** The caller that takes an error for a defect *)

Section Must.

Variable unicodeLower : string → string.
Variable isVisible : Database → Transaction → Value → bool.

(** [func (c *Connection) mustExecCommand(cmd string, args []string) string]:
    the result of [execCommand], or the panic of
    [assertEq(err, nil, "unexpected error")] when it returned an error; a
    panic of [execCommand] itself goes through. *)
Definition mustExecCommand (c : Connection) (cmd : string)
    (args : list string) : (Panic + string) * Connection :=
  match execCommand unicodeLower isVisible c cmd args with
  | (Returned res None, c') => (inr res, c')
  | (Returned _ (Some _), c') => (inl (AssertEqFailed "unexpected error"), c')
  | (Panicked p, c') => (inl p, c')
  end.

End Must.

(** ** More vocabulary *)

(** The commands [execCommand] has a branch for. *)
Definition known_commands : list string :=
  ["begin"; "abort"; "commit"; "get"; "set"; "delete"].

(** What [set] and [delete] do to one version: its end id becomes the id of
    the transaction if the version is visible to it. *)
Definition close_visible (isVisible : Database → Transaction → Value → bool)
    (d : Database) (t : Transaction) (v : Value) : Value :=
  if isVisible d t v then set_txEndID (id t) v else v.

(** A visibility rule that reads, of the database, the transaction table
    only. *)
Definition reads_table_only
    (isVisible : Database → Transaction → Value → bool) : Prop :=
  ∀ d d' t v, transactions d = transactions d' →
    isVisible d t v = isVisible d' t v.

(** A visibility rule that reads, of the transaction, its id, isolation
    level and snapshot only. *)
Definition reads_view_only
    (isVisible : Database → Transaction → Value → bool) : Prop :=
  ∀ d t t' v, id t = id t' → isolation t = isolation t' →
    inProgress t = inProgress t' → isVisible d t v = isVisible d t' v.

(** A visibility rule that hides from a transaction (with an id above 0,
    0 being the end id of an open version) the versions it has closed
    itself. *)
Definition hides_own_closed
    (isVisible : Database → Transaction → Value → bool) : Prop :=
  ∀ d t v, 0 < id t → txEndID v = id t → isVisible d t v = false.

(** The copy of a transaction that [newTransaction] puts in the table:
    in progress, with empty read and write sets. *)
Definition table_copy (t : Transaction) : Transaction :=
  mkTransaction (id t) (isolation t) InProgressTransaction (inProgress t) ∅ ∅.

(** Every connection's transaction is in progress, has an id above 0 and
    has its copy under that id in the table; two connections do not hold
    the same id. *)
Definition connections_valid_in (conns : gmap nat Transaction)
    (d : Database) : Prop :=
  (∀ n t, conns !! n = Some t →
     0 < id t ∧ state t = InProgressTransaction ∧
     transactions d !! id t = Some (table_copy t)) ∧
  (∀ n m t u, conns !! n = Some t → conns !! m = Some u →
     id t = id u → n = m).

Definition connections_valid (s : System) : Prop :=
  connections_valid_in (sys_conns s) (sys_db s).

(** The panics of a misused connection or a short argument list, as opposed
    to those of the assertions inside [assertValidTransaction]. *)
Definition expected_panic (p : Panic) : Prop :=
  p = AssertEqFailed "no running transactions" ∨
  p = NilDereference ∨ p = IndexOutOfRange.

Definition expected_outcome (o : Outcome) : Prop :=
  match o with
  | Returned _ _ => True
  | Panicked p => expected_panic p
  end.

(** A database whose counter is at the last [uint64], and one whose counter
    has wrapped to 0. *)
Definition last_id_database : Database :=
  set_nextTransactionID (2 ^ 64 - 1) newDatabase.

Definition wrapped_database : Database :=
  set_nextTransactionID 0 newDatabase.

(** The first connection of [started] after one [set], and after two. *)
Definition written_once : Connection :=
  (execCommand unicodeLower_id versionVisible started "set" ["x"; "1"]).2.

Definition written_twice : Connection :=
  (execCommand unicodeLower_id versionVisible written_once "set" ["x"; "2"]).2.

(** A sequence of calls with commits, an abort and misuse. *)
Definition mixed_run : list Op :=
  [(0%nat, "begin", []); (1%nat, "begin", []); (0%nat, "set", ["x"; "1"]);
   (1%nat, "get", ["x"]); (0%nat, "commit", []); (0%nat, "commit", []);
   (1%nat, "set", ["x"]); (1%nat, "abort", []); (2%nat, "delete", []);
   (1%nat, "begin", ["serializable"]); (1%nat, "begin", [])].

(** The creator of every version is a transaction of the table with an id
    above 0, and so is its closer when it has one. *)
Definition versions_registered (d : Database) : Prop :=
  ∀ k i v, (store d !!! k) !! i = Some v →
    0 < txStartID v ∧ is_Some (transactions d !! txStartID v) ∧
    (txEndID v = 0 ∨ is_Some (transactions d !! txEndID v)).

(** * Properties *)

(** ** What the assertions guarantee *)

Lemma assertValidTransaction_inr d o t :
  assertValidTransaction d o = inr t →
  o = Some t ∧ 0 < id t ∧
  ∃ t', transactions d !! id t = Some t' ∧ state t' = InProgressTransaction.
Proof.
  unfold assertValidTransaction, transactionState.
  destruct o as [u|]; [|discriminate].
  case_decide; [|discriminate].
  destruct (transactions d !! id u) as [t'|] eqn:Hlk; [|discriminate].
  case_decide; [|discriminate].
  intros [= <-]. eauto.
Qed.

Lemma assertValidTransaction_pass d t t' :
  0 < id t → transactions d !! id t = Some t' →
  state t' = InProgressTransaction →
  assertValidTransaction d (Some t) = inr t.
Proof.
  intros Hid Hlk Hst. unfold assertValidTransaction, transactionState.
  rewrite decide_True by done. rewrite Hlk. by rewrite decide_True.
Qed.

Lemma Connection_eta c t :
  tx c = Some t → mkConnection (Some t) (db c) = c.
Proof. destruct c; simpl; by intros ->. Qed.

Section Steps.

Variable unicodeLower : string → string.
Variable isVisible : Database → Transaction → Value → bool.

(** *** [execCommand], command by command *)

Lemma execCommand_begin c args :
  execCommand unicodeLower isVisible c "begin" args =
  match tx c with
  | Some _ => (Panicked (AssertEqFailed "no running transactions"), c)
  | None =>
    let c' := mkConnection (Some (newTransaction (db c)).1)
                (newTransaction (db c)).2 in
    match assertValidTransaction (db c') (tx c') with
    | inl p => (Panicked p, c')
    | inr t => (Returned (Sprintf_d (id t)) None, c')
    end
  end.
Proof. reflexivity. Qed.

Lemma execCommand_complete c command args s :
  (command = "abort" ∧ s = AbortedTransaction) ∨
  (command = "commit" ∧ s = CommittedTransaction) →
  execCommand unicodeLower isVisible c command args =
  match assertValidTransaction (db c) (tx c) with
  | inl p => (Panicked p, c)
  | inr t =>
    (Returned "" None, mkConnection None (completeTransaction (db c) t s).2)
  end.
Proof. by intros [[-> ->]|[-> ->]]. Qed.

Lemma execCommand_get c args :
  execCommand unicodeLower isVisible c "get" args =
  match assertValidTransaction (db c) (tx c) with
  | inl p => (Panicked p, c)
  | inr t =>
    match args !! 0%nat with
    | None => (Panicked IndexOutOfRange, c)
    | Some key =>
      let t := insert_readset key t in
      match get_loop isVisible (db c) t key
              (length (store (db c) !!! key) - 1)%nat with
      | Some v => (Returned v None, mkConnection (Some t) (db c))
      | None =>
        (Returned "" (Some unimplemented_error),
         mkConnection (Some t) (db c))
      end
    end
  end.
Proof.
  change (execCommand unicodeLower isVisible c "get" args) with
    (match assertValidTransaction (db c) (tx c) with
     | inl p => (Panicked p, c)
     | inr t =>
       match args !! 0%nat with
       | None => (Panicked IndexOutOfRange, c)
       | Some key =>
         let t := insert_readset key t in
         let c := mkConnection (Some t) (db c) in
         match get_loop isVisible (db c) t key
                 (length (store (db c) !!! key) - 1)%nat with
         | Some v => (Returned v None, c)
         | None => exec_write isVisible c "get" args
         end
       end
     end).
  reflexivity.
Qed.

Lemma execCommand_write c command args :
  command = "set" ∨ command = "delete" →
  execCommand unicodeLower isVisible c command args = exec_write isVisible c command args.
Proof. by intros [-> | ->]. Qed.

(** *** The two loops *)

(** A loop of [get] that meets no visible version runs to its end. *)
Lemma get_loop_none d t key i :
  (∀ j v, (store d !!! key) !! j = Some v → isVisible d t v = false) →
  get_loop isVisible d t key i = None.
Proof.
  intros Hnone. induction i as [|j IH]; [done|]. simpl.
  destruct ((store d !!! key) !! S j) as [v|] eqn:Hv; [|done].
  by rewrite (Hnone _ _ Hv).
Qed.

(** A visible version at the index where the loop starts is returned. *)
Lemma get_loop_first d t key j v :
  (store d !!! key) !! S j = Some v → isVisible d t v = true →
  get_loop isVisible d t key (S j) = Some (value v).
Proof. intros Hv Hvis. simpl. by rewrite Hv, Hvis. Qed.

(** When [found] comes out false the loop has changed nothing. *)
Lemma close_loop_not_found t key n d found :
  (close_loop isVisible t key n d found).2 = false →
  found = false ∧ (close_loop isVisible t key n d found).1 = d.
Proof.
  revert d found. induction n as [|i IH]; intros d found; simpl; [done|].
  destruct ((store d !!! key) !! i) as [v|]; [|done].
  destruct (isVisible d t v); [|by apply IH].
  intros H. by destruct (IH _ _ H).
Qed.

(** With no visible version the loop changes nothing and finds nothing. *)
Lemma close_loop_none t key n d found :
  (∀ j v, (store d !!! key) !! j = Some v → isVisible d t v = false) →
  close_loop isVisible t key n d found = (d, found).
Proof.
  intros Hnone. induction n as [|i IH]; [done|]. simpl.
  destruct ((store d !!! key) !! i) as [v|] eqn:Hv; [|done].
  by rewrite (Hnone _ _ Hv).
Qed.

End Steps.

(** ** Reads and deletes that find nothing *)

Section NotFound.

Variable unicodeLower : string → string.
Variable isVisible : Database → Transaction → Value → bool.

(** C1 (the code at the failing input).  In a valid, in-progress
    transaction, [set k v] on a key that has no version yet stores the new
    version as the only one of [k] and returns [v]; the [get k] that follows
    in the same transaction does not return [v]: its loop stops before index
    0, so it never looks at that version, and the call ends in the
    "command unimplemented" error. *)
Theorem set_then_get_single_version (c : Connection) (t : Transaction)
    (k v : string) :
  assertValidTransaction (db c) (tx c) = inr t →
  store (db c) !!! k = [] →
  let c1 := (execCommand unicodeLower isVisible c "set" [k; v]).2 in
  (execCommand unicodeLower isVisible c "set" [k; v]).1 = Returned v None ∧
  store (db c1) !!! k = [mkValue (id t) 0 v] ∧
  (execCommand unicodeLower isVisible c1 "get" [k]).1 =
    Returned "" (Some unimplemented_error).
Proof.
  intros Hvalid Hempty.
  destruct (assertValidTransaction_inr _ _ _ Hvalid) as (Htx & Hid & t' & Hlk & Hst).
  rewrite execCommand_write by auto. unfold exec_write.
  rewrite decide_True by auto. rewrite Hvalid. simpl.
  rewrite Hempty. simpl. unfold appended. simpl. rewrite Hempty. simpl.
  rewrite lookup_total_insert_eq. split_and!; [done..|].
  rewrite execCommand_get. simpl.
  rewrite (assertValidTransaction_pass _ (insert_writeset k t) t') by done.
  simpl. by rewrite lookup_total_insert_eq.
Qed.

(** C4 (the code where the claim applies).  In a valid, in-progress
    transaction, a [get k] to which no version of [k] is visible returns the
    empty string together with the error "command unimplemented": the [get]
    branch has no return of its own after the loop and falls through to the
    last statement of the function.  The key has been added to the
    connection's readset; the database is unchanged. *)
Theorem get_nothing_visible (c : Connection) (t : Transaction)
    (k : string) (rest : list string) :
  assertValidTransaction (db c) (tx c) = inr t →
  (∀ j w, (store (db c) !!! k) !! j = Some w →
          isVisible (db c) (insert_readset k t) w = false) →
  execCommand unicodeLower isVisible c "get" (k :: rest) =
    (Returned "" (Some unimplemented_error),
     mkConnection (Some (insert_readset k t)) (db c)).
Proof.
  intros Hvalid Hnone. rewrite execCommand_get, Hvalid. simpl.
  by rewrite get_loop_none.
Qed.

(** C9 (the code where the claim applies).  In a valid, in-progress
    transaction, a [delete k] to which no version of [k] is visible fails,
    and the text of its error is the same for every key: the format's [%q]
    has no operand, so the key does not appear in it. *)
Theorem delete_nothing_visible (c : Connection) (t : Transaction)
    (k : string) (rest : list string) :
  assertValidTransaction (db c) (tx c) = inr t →
  (∀ j w, (store (db c) !!! k) !! j = Some w → isVisible (db c) t w = false) →
  (execCommand unicodeLower isVisible c "delete" (k :: rest)).1 =
    Returned "" (Some "delete failed: key %!q(MISSING) not found").
Proof.
  intros Hvalid Hnone. rewrite execCommand_write by auto. unfold exec_write.
  rewrite decide_True by auto. rewrite Hvalid. simpl.
  by rewrite close_loop_none.
Qed.

(** C10.  A [delete] that returns its key-not-found error has changed
    nothing: the database (every version of every key, the transaction
    table, the id counter) and the connection's transaction, writeset
    included, are as they were before the call. *)
Theorem delete_failed_unchanged (c : Connection) (args : list string) :
  (execCommand unicodeLower isVisible c "delete" args).1 =
    Returned "" (Some delete_failed_error) →
  (execCommand unicodeLower isVisible c "delete" args).2 = c.
Proof.
  rewrite execCommand_write by auto. unfold exec_write.
  rewrite decide_True by auto.
  destruct (assertValidTransaction (db c) (tx c)) as [p|t] eqn:Hvalid; [done|].
  destruct (assertValidTransaction_inr _ _ _ Hvalid) as (Htx & _).
  destruct (args !! 0%nat) as [key|]; [|done].
  destruct (close_loop isVisible t key _ (db c) false) as [d found] eqn:Hloop.
  simpl. destruct found; simpl; [done|]. intros _.
  destruct (close_loop_not_found isVisible t key
              (length (store (db c) !!! key)) (db c) false) as [_ Hd].
  { by rewrite Hloop. }
  rewrite Hloop in Hd. simpl in Hd. subst d. by apply Connection_eta.
Qed.

End NotFound.

(** ** The effect of a call *)

Section Effects.

Variable unicodeLower : string → string.
Variable isVisible : Database → Transaction → Value → bool.

(** Only the lower-case form of the command matters. *)
Lemma execCommand_lowered c command cmd args :
  ToLower unicodeLower command = cmd → ToLower unicodeLower cmd = cmd →
  execCommand unicodeLower isVisible c command args =
  execCommand unicodeLower isVisible c cmd args.
Proof. intros Hcmd Hlow. unfold execCommand. by rewrite Hcmd, Hlow. Qed.

(** A spelling with a byte outside ASCII runs the command the Unicode
    mapping turns it into: with U+0130 for the I, [begin] is still
    [begin]. *)
Lemma execCommand_unicode_spelling c command cmd args :
  isASCII command = false → unicodeLower command = cmd →
  ToLower unicodeLower cmd = cmd →
  execCommand unicodeLower isVisible c command args =
  execCommand unicodeLower isVisible c cmd args.
Proof.
  intros Hascii Hcmd Hlow. apply execCommand_lowered; [|done].
  unfold ToLower. by rewrite Hascii.
Qed.

Lemma exec_write_Effect c command args :
  Effect isVisible c command (exec_write isVisible c command args).2.
Proof.
  unfold exec_write. case_decide; [|constructor].
  destruct (assertValidTransaction (db c) (tx c)) as [p|t] eqn:Hvalid;
    [constructor|].
  destruct (args !! 0%nat) as [key|]; [|constructor].
  pose proof (Effect_close isVisible c command t key Hvalid) as Hclose.
  pose proof (Effect_write isVisible c command t key Hvalid) as Hwrite.
  pose proof (Effect_set isVisible c command t key) as Hset.
  destruct (close_loop isVisible t key _ (db c) false) as [d found].
  destruct (bool_decide (command = "delete") && negb found); [done|].
  case_decide; [|done].
  destruct (args !! 1%nat) as [v|]; [|done]. by apply Hset.
Qed.

Lemma execCommand_Effect c command args :
  Effect isVisible c (ToLower unicodeLower command)
    (execCommand unicodeLower isVisible c command args).2.
Proof.
  unfold execCommand. generalize (ToLower unicodeLower command). clear command.
  intros command. case_decide as Hbegin.
  { subst command. destruct (tx c) eqn:Htx; [constructor|].
    pose proof (Effect_begin isVisible c Htx) as Hb.
    destruct (newTransaction (db c)) as [t d]. simpl in *.
    by destruct (assertValidTransaction d (Some t)). }
  case_decide.
  { destruct (assertValidTransaction (db c) (tx c)) eqn:Hvalid; [constructor|].
    by apply (Effect_complete _ _ _ _ AbortedTransaction). }
  case_decide.
  { destruct (assertValidTransaction (db c) (tx c)) eqn:Hvalid; [constructor|].
    by apply (Effect_complete _ _ _ _ CommittedTransaction). }
  case_decide; [|apply exec_write_Effect].
  subst command.
  destruct (assertValidTransaction (db c) (tx c)) as [p|t] eqn:Hvalid;
    [constructor|].
  destruct (args !! 0%nat) as [key|]; [|constructor].
  simpl. destruct (get_loop _ _ _ _ _); by apply Effect_get.
Qed.

(** *** What the loop of [set] and [delete] leaves alone *)

Lemma close_loop_frame t key n d found :
  let d' := (close_loop isVisible t key n d found).1 in
  defaultIsolation d' = defaultIsolation d ∧
  transactions d' = transactions d ∧
  nextTransactionID d' = nextTransactionID d.
Proof.
  revert d found. induction n as [|i IH]; intros d found; simpl; [done|].
  destruct ((store d !!! key) !! i) as [v|]; [|done].
  destruct (isVisible d t v); [|apply IH].
  destruct (IH (stamp d key i (id t)) true) as (-> & -> & ->). done.
Qed.

Lemma stamp_lookup d key i0 e k i :
  (store (stamp d key i0 e) !!! k) !! i =
  if decide (k = key ∧ i = i0) then set_txEndID e <$> (store d !!! k) !! i
  else (store d !!! k) !! i.
Proof.
  unfold stamp. simpl. destruct (decide (key = k)) as [->|Hk].
  - rewrite lookup_total_insert_eq. destruct (decide (i0 = i)) as [->|Hi].
    + rewrite decide_True by done. apply list_lookup_alter_eq.
    + rewrite decide_False by (intros [_ ?]; congruence).
      by apply list_lookup_alter_ne.
  - rewrite lookup_total_insert_ne by done.
    by rewrite decide_False by (intros [? _]; congruence).
Qed.

(** A version after the loop is the version before it, with its end id
    either as it was or set to the id of the transaction. *)
Lemma close_loop_lookup t key n d found k i :
  let d' := (close_loop isVisible t key n d found).1 in
  (store d' !!! k) !! i = (store d !!! k) !! i ∨
  (store d' !!! k) !! i = set_txEndID (id t) <$> (store d !!! k) !! i.
Proof.
  revert d found. induction n as [|j IH]; intros d found; simpl; [by left|].
  destruct ((store d !!! key) !! j) as [v|]; [|by left].
  destruct (isVisible d t v); [|apply IH].
  destruct (IH (stamp d key j (id t)) true) as [-> | ->];
    rewrite stamp_lookup; case_decide; auto.
  right. by destruct ((store d !!! k) !! i).
Qed.

Lemma close_loop_versions_kept t key n d found :
  id t ≠ 0 →
  versions_kept d (close_loop isVisible t key n d found).1.
Proof.
  intros Hid k i v Hv.
  destruct (close_loop_lookup t key n d found k i) as [-> | ->];
    rewrite Hv; simpl; eauto.
Qed.

End Effects.

(** ** Begin, commit and abort *)

(** The set built by [inProgress] holds the ids of the entries in progress. *)
Lemma elem_of_Database_inProgress d i :
  i ∈ Database_inProgress d ↔
  ∃ t, transactions d !! i = Some t ∧ state t = InProgressTransaction.
Proof.
  unfold Database_inProgress.
  assert (∀ l : list (N * Transaction),
    i ∈ foldr (λ kv ids, if decide (state kv.2 = InProgressTransaction)
                         then {[kv.1]} ∪ ids else ids) (∅ : gset N) l ↔
    ∃ t, (i, t) ∈ l ∧ state t = InProgressTransaction) as Hfold.
  { induction l as [|[k u] l IH]; simpl.
    - split; [intros Hin; by apply not_elem_of_empty in Hin|].
      intros (t & Hin & _). by apply elem_of_nil in Hin.
    - case_decide as Hst; simpl in Hst.
      + rewrite elem_of_union, elem_of_singleton, IH. split.
        * intros [-> | (t & Hin & Ht)]; [exists u|exists t];
            (split; [apply elem_of_cons; auto|done]).
        * intros (t & Hin & Ht). apply elem_of_cons in Hin as [[= -> ->]|Hin];
            eauto.
      + rewrite IH. split.
        * intros (t & Hin & Ht). exists t.
          split; [apply elem_of_cons; auto|done].
        * intros (t & Hin & Ht). apply elem_of_cons in Hin as [[= -> ->]|Hin];
            [done|eauto]. }
  rewrite Hfold. by setoid_rewrite elem_of_map_to_list.
Qed.

Section Lifecycle.

Variable unicodeLower : string → string.
Variable isVisible : Database → Transaction → Value → bool.

(** C6.  A [begin] on a connection without a transaction allocates the
    counter's value as the id, at whatever isolation level the database has
    (so at repeatable-read and stricter too): the new transaction is in
    progress, its snapshot holds exactly the ids that are in progress in the
    table when [begin] is called, the table maps the new id to the new
    transaction, and, the id being new to the table, the snapshot does not
    hold it: it is the set of ids in progress after the call without the
    new id. *)
Theorem begin_snapshot (c : Connection) (args : list string) :
  tx c = None →
  transactions (db c) !! nextTransactionID (db c) = None →
  let c' := (execCommand unicodeLower isVisible c "begin" args).2 in
  ∃ t, tx c' = Some t ∧
       id t = nextTransactionID (db c) ∧
       state t = InProgressTransaction ∧
       isolation t = defaultIsolation (db c) ∧
       transactions (db c') !! id t = Some t ∧
       (∀ i, i ∈ inProgress t ↔
             ∃ u, transactions (db c) !! i = Some u ∧
                  state u = InProgressTransaction) ∧
       (id t ∉ inProgress t) ∧
       inProgress t = Database_inProgress (db c') ∖ {[id t]}.
Proof.
  intros Htx Hfresh. rewrite execCommand_begin, Htx.
  set (t := (newTransaction (db c)).1).
  assert (id t ∉ inProgress t) as Hnot.
  { simpl. rewrite elem_of_Database_inProgress. intros (u & Hu & _).
    by rewrite Hfresh in Hu. }
  exists t. split.
  { simpl. by destruct (assertValidTransaction _ _). }
  assert (∀ x : Outcome * Connection, ∀ c1,
    x.2 = c1 → db x.2 = db c1) as Hdb by (by intros ? ? ->).
  rewrite (Hdb _ (mkConnection (Some t) (newTransaction (db c)).2))
    by (simpl; by destruct (assertValidTransaction _ _)).
  split_and!; try done.
  - simpl. apply lookup_insert_eq.
  - intros i. apply elem_of_Database_inProgress.
  - apply set_eq. intros i.
    rewrite elem_of_difference, elem_of_singleton.
    rewrite (elem_of_Database_inProgress (newTransaction (db c)).2).
    simpl. split.
    + intros Hi. split.
      * apply elem_of_Database_inProgress in Hi as (u & Hu & Hst).
        exists u. rewrite lookup_insert_ne; [done|].
        intros Heq. rewrite Heq, Hu in Hfresh. done.
      * intros ->. by apply Hnot.
    + intros [(u & Hu & Hst) Hne]. rewrite lookup_insert_ne in Hu by done.
      apply elem_of_Database_inProgress. eauto.
Qed.

(** C2 as amended.  A [commit] in a valid, in-progress transaction always
    succeeds, at every isolation level and whatever the transaction and
    others have written: it returns the empty string and no error, stores
    the transaction in the table with state committed, and leaves the
    connection without a transaction.  Nothing else in the database
    changes. *)
Theorem commit_always_succeeds (c : Connection) (t : Transaction)
    (args : list string) :
  assertValidTransaction (db c) (tx c) = inr t →
  execCommand unicodeLower isVisible c "commit" args =
    (Returned "" None,
     mkConnection None
       (set_transactions
          (<[id t := set_state CommittedTransaction t]> (transactions (db c)))
          (db c))).
Proof.
  intros Hvalid.
  rewrite (execCommand_complete _ _ _ _ _ CommittedTransaction) by auto.
  by rewrite Hvalid.
Qed.

(** C7 as amended.  A [begin] on a connection that has a transaction
    panics in [assertEq] with "no running transactions"; a [get], [set],
    [delete], [commit] or [abort] on a connection that has none panics on
    the nil pointer that [assertValidTransaction] reads the id through.  No
    error value is returned, and the connection and the database are as
    they were before the call. *)
Theorem misuse_panics (c : Connection) (command : string)
    (args : list string) :
  (ToLower unicodeLower command = "begin" ∧ is_Some (tx c)) ∨
  (ToLower unicodeLower command ∈
     ["get"; "set"; "delete"; "commit"; "abort"] ∧
   tx c = None) →
  execCommand unicodeLower isVisible c command args =
    (Panicked
       (if decide (ToLower unicodeLower command = "begin")
        then AssertEqFailed "no running transactions"
        else NilDereference),
     c).
Proof.
  intros [[Hcmd [t Ht]] | [Hcmd Htx]].
  - rewrite decide_True by done.
    rewrite (execCommand_lowered _ _ _ command "begin" _ Hcmd eq_refl).
    by rewrite execCommand_begin, Ht.
  - repeat (apply elem_of_cons in Hcmd as [Hcmd | Hcmd]);
      [| | | | |by apply elem_of_nil in Hcmd];
      rewrite decide_False by (by rewrite Hcmd);
      rewrite (execCommand_lowered _ _ _ command _ _ Hcmd eq_refl);
      unfold execCommand, exec_write; simpl; by rewrite Htx.
Qed.

End Lifecycle.

(** ** Versions are kept *)

Lemma versions_kept_store d d' : store d' = store d → versions_kept d d'.
Proof. intros Heq k i v Hv. rewrite Heq. eauto. Qed.

Lemma versions_kept_trans d1 d2 d3 :
  versions_kept d1 d2 → versions_kept d2 d3 → versions_kept d1 d3.
Proof.
  intros H12 H23 k i v Hv.
  destruct (H12 _ _ _ Hv) as (v2 & Hv2 & Hs2 & Hp2 & He2).
  destruct (H23 _ _ _ Hv2) as (v3 & Hv3 & Hs3 & Hp3 & He3).
  exists v3. split_and!; [done|congruence|congruence|auto].
Qed.

Lemma versions_kept_append d key v : versions_kept d (appended key v d).
Proof.
  intros k i w Hw. exists w. split; [|done]. simpl.
  destruct (decide (key = k)) as [->|Hne].
  - rewrite lookup_total_insert_eq. by apply lookup_app_l_Some.
  - by rewrite lookup_total_insert_ne.
Qed.

Section Frames.

Variable unicodeLower : string → string.
Variable isVisible : Database → Transaction → Value → bool.

Lemma Effect_versions_kept c command c' :
  Effect isVisible c command c' → versions_kept (db c) (db c').
Proof.
  destruct 1 as [| |? t ? Hvalid|? t ? Hvalid|? t key Hvalid|? t key Hvalid
                 |? t key v Hvalid]; try by apply versions_kept_store.
  all: destruct (assertValidTransaction_inr _ _ _ Hvalid) as (_ & Hid & _).
  all: assert (id t ≠ 0) as Hne by lia.
  - by apply close_loop_versions_kept.
  - by apply close_loop_versions_kept.
  - eapply versions_kept_trans; [by apply close_loop_versions_kept|].
    apply versions_kept_append.
Qed.

(** C8.  An [abort] in a valid, in-progress transaction [t] returns without
    error, stores [t] with state aborted under its id in the table and takes
    the transaction off the connection; the other fields of [t] and of the
    database are as before, and the store in particular is the same, so
    every version that [t] closed is still closed.  And whatever the call
    (any connection, command and arguments), every version stays where it
    is with its creator and payload, and an end id that is not 0 before the
    call is not 0 after it. *)
Theorem abort_changes_state_only (c : Connection) (t : Transaction)
    (args : list string) (c0 : Connection) (command : string)
    (args0 : list string) :
  assertValidTransaction (db c) (tx c) = inr t →
  execCommand unicodeLower isVisible c "abort" args =
    (Returned "" None,
     mkConnection None
       (set_transactions
          (<[id t := set_state AbortedTransaction t]> (transactions (db c)))
          (db c))) ∧
  store (db (execCommand unicodeLower isVisible c "abort" args).2) = store (db c) ∧
  versions_kept (db c0) (db (execCommand unicodeLower isVisible c0 command args0).2).
Proof.
  intros Hvalid.
  rewrite (execCommand_complete _ _ _ _ _ AbortedTransaction) by auto.
  rewrite Hvalid. split_and!; [done..|].
  eapply Effect_versions_kept, execCommand_Effect.
Qed.

End Frames.

(** ** Runs *)

Section RunProperties.

Variable unicodeLower : string → string.
Variable isVisible : Database → Transaction → Value → bool.

Lemma step_outcome s n command args :
  (step unicodeLower isVisible s (n, command, args)).1 =
  (execCommand unicodeLower isVisible (mkConnection (sys_conns s !! n) (sys_db s))
     command args).1.
Proof. unfold step. by destruct (execCommand _ _ _ _ _). Qed.

Lemma step_db s n command args :
  sys_db (step unicodeLower isVisible s (n, command, args)).2 =
  db (execCommand unicodeLower isVisible (mkConnection (sys_conns s !! n) (sys_db s))
        command args).2.
Proof. unfold step. by destruct (execCommand _ _ _ _ _). Qed.

Lemma step_conns s n command args m :
  sys_conns (step unicodeLower isVisible s (n, command, args)).2 !! m =
  if decide (n = m)
  then tx (execCommand unicodeLower isVisible (mkConnection (sys_conns s !! n) (sys_db s))
             command args).2
  else sys_conns s !! m.
Proof.
  unfold step. destruct (execCommand _ _ _ _ _) as [out c]. simpl.
  destruct (tx c); case_decide; subst;
    by rewrite ?lookup_insert_eq, ?lookup_insert_ne,
               ?lookup_delete_eq, ?lookup_delete_ne by done.
Qed.

(** *** Isolation levels *)

Lemma Effect_isolation_is l c command c' :
  Effect isVisible c command c' → isolation_is l c → isolation_is l c'.
Proof.
  intros Heff (Hdef & Htable & Htx).
  destruct Heff as [| |? t ? Hvalid|? t ? Hvalid|? t key Hvalid|? t key Hvalid
                    |? t key v Hvalid]; [done|..].
  2-6: destruct (assertValidTransaction_inr _ _ _ Hvalid) as (Hc & _).
  2-6: pose proof (Htx _ Hc) as Hiso.
  4-6: destruct (close_loop_frame isVisible t key
                   (length (store (db c) !!! key)) (db c) false)
         as (Hd & Ht & _).
  all: split_and!; simpl; rewrite ?Hd, ?Ht; try done.
  all: try (intros ? [= <-]; done).
  all: intros i u; rewrite lookup_insert; case_decide; [|by apply Htable].
  all: by intros [= <-].
Qed.

Lemma step_isolation_is l s o :
  system_isolation_is l s → system_isolation_is l (step unicodeLower isVisible s o).2.
Proof.
  destruct o as [[n command] args]. intros (Hdef & Htable & Hconns).
  pose proof (execCommand_Effect unicodeLower isVisible
    (mkConnection (sys_conns s !! n) (sys_db s)) command args) as Heff.
  apply (Effect_isolation_is l) in Heff as (Hdef' & Htable' & Htx');
    [|split_and!; simpl; eauto].
  unfold system_isolation_is. rewrite step_db. split_and!; [done..|].
  intros m t. rewrite step_conns. case_decide; eauto.
Qed.

Lemma run_isolation_is l ops s :
  system_isolation_is l s → system_isolation_is l (run unicodeLower isVisible s ops).
Proof.
  revert s. induction ops as [|o ops IH]; intros s Hs; [done|].
  simpl. by apply IH, step_isolation_is.
Qed.

(** C3.  After any sequence of calls on the database made by [newDatabase]
    (any connections, commands and arguments, the arguments of [begin]
    included), every transaction in the table has isolation level
    read-committed. *)
Theorem table_is_read_committed (ops : list Op) (i : N) (t : Transaction) :
  transactions (sys_db (run unicodeLower isVisible initial ops)) !! i = Some t →
  isolation t = ReadCommittedIsolation.
Proof.
  destruct (run_isolation_is ReadCommittedIsolation ops initial)
    as (_ & Htable & _); [|by apply Htable].
  split_and!; [done|..]; intros ? ?; simpl; by rewrite lookup_empty.
Qed.

(** The default level itself never changes. *)
Lemma default_is_read_committed ops :
  defaultIsolation (sys_db (run unicodeLower isVisible initial ops)) =
  ReadCommittedIsolation.
Proof.
  destruct (run_isolation_is ReadCommittedIsolation ops initial)
    as (Hdef & _); [|done].
  split_and!; [done|..]; intros ? ?; simpl; by rewrite lookup_empty.
Qed.

End RunProperties.

(** ** Transaction ids *)

Lemma uint64_incr_small n : n + 1 < 2 ^ 64 → uint64_incr n = n + 1.
Proof. intros Hn. unfold uint64_incr. by apply N.mod_small. Qed.


Section Ids.

Variable unicodeLower : string → string.
Variable isVisible : Database → Transaction → Value → bool.


(** A [begin] on a connection without a transaction returns the counter in
    decimal, provided the counter is not 0. *)
Lemma execCommand_begin_free c args :
  tx c = None → 0 < nextTransactionID (db c) →
  execCommand unicodeLower isVisible c "begin" args =
    (Returned (Sprintf_d (nextTransactionID (db c))) None,
     mkConnection (Some (newTransaction (db c)).1) (newTransaction (db c)).2).
Proof.
  intros Htx Hpos. rewrite execCommand_begin, Htx. simpl.
  erewrite assertValidTransaction_pass; [done|done|apply lookup_insert_eq|done].
Qed.

(** The table stays below the counter as long as the counter does not
    wrap, and a call moves the counter by one at most. *)
Lemma Effect_ids_below c command c' :
  Effect isVisible c command c' → ids_below_next (db c) →
  nextTransactionID (db c) + 1 < 2 ^ 64 →
  ids_below_next (db c') ∧
  nextTransactionID (db c') ≤ nextTransactionID (db c) + 1.
Proof.
  intros Heff [Hone Hbelow] Hbound.
  destruct Heff as [| |? t ? Hvalid|? t ? Hvalid|? t key Hvalid|? t key Hvalid
                    |? t key v Hvalid].
  - split; [done|lia].
  - simpl. rewrite uint64_incr_small by done. split; [|lia].
    split; simpl; [lia|]. intros i. rewrite lookup_insert.
    case_decide; [lia|]. intros Hi. apply Hbelow in Hi. lia.
  - destruct (assertValidTransaction_inr _ _ _ Hvalid) as (_ & _ & t' & Hlk & _).
    split; [|simpl; lia]. split; simpl; [done|]. intros i.
    rewrite lookup_insert. case_decide as Hi; [|apply Hbelow].
    simpl in Hi. subst i. intros _. by apply Hbelow.
  - split; [done|simpl; lia].
  - destruct (close_loop_frame isVisible t key
                (length (store (db c) !!! key)) (db c) false)
      as (_ & Ht & Hn).
    unfold ids_below_next. simpl. rewrite Ht, Hn. split; [done|lia].
  - destruct (close_loop_frame isVisible t key
                (length (store (db c) !!! key)) (db c) false)
      as (_ & Ht & Hn).
    unfold ids_below_next. simpl. rewrite Ht, Hn. split; [done|lia].
  - destruct (close_loop_frame isVisible t key
                (length (store (db c) !!! key)) (db c) false)
      as (_ & Ht & Hn).
    unfold ids_below_next. simpl. rewrite Ht, Hn. split; [done|lia].
Qed.

(** In a run short of [2^64] calls the counter never wraps: the ids of the
    table are below it, so the id of the next [begin] is new. *)
Lemma run_ids_below ops s :
  ids_below_next (sys_db s) →
  nextTransactionID (sys_db s) + N.of_nat (length ops) < 2 ^ 64 →
  ids_below_next (sys_db (run unicodeLower isVisible s ops)) ∧
  nextTransactionID (sys_db (run unicodeLower isVisible s ops)) ≤
    nextTransactionID (sys_db s) + N.of_nat (length ops).
Proof.
  revert s. induction ops as [|[[n command] args] ops IH]; intros s Hs Hbound.
  { simpl. split; [done|lia]. }
  simpl length in Hbound. simpl run.
  pose proof (execCommand_Effect unicodeLower isVisible
    (mkConnection (sys_conns s !! n) (sys_db s)) command args) as Heff.
  apply Effect_ids_below in Heff as [Hs' Hn']; [|done|simpl; lia].
  simpl in Hn'. rewrite <- step_db in Hs', Hn'.
  destruct (IH _ Hs') as [Hfin Hle]; [lia|]. split; [done|].
  simpl length. lia.
Qed.



End Ids.

(** From the database made by [newDatabase], a run short of [2^64] calls
    leaves the counter on an id the table does not hold. *)
Lemma reachable_next_fresh unicodeLower isVisible ops :
  N.of_nat (length ops) < 2 ^ 64 - 1 →
  let d := sys_db (run unicodeLower isVisible initial ops) in
  transactions d !! nextTransactionID d = None.
Proof.
  intros Hbound. cbv zeta.
  destruct (run_ids_below unicodeLower isVisible ops initial) as [[_ Hbelow] _].
  - split; [done|]. intros i. simpl. rewrite lookup_empty. by intros [? ?].
  - simpl. lia.
  - destruct (transactions _ !! _) eqn:Hlk; [|done].
    exfalso. eapply N.lt_irrefl, Hbelow. by rewrite Hlk.
Qed.

(** ** A write is read back when the key had a version *)

Section ReadBack.

Variable unicodeLower : string → string.
Variable isVisible : Database → Transaction → Value → bool.

Lemma close_loop_length t key n d found k :
  length (store (close_loop isVisible t key n d found).1 !!! k) =
  length (store d !!! k).
Proof.
  revert d found. induction n as [|i IH]; intros d found; simpl; [done|].
  destruct ((store d !!! key) !! i) as [v|]; [|done].
  destruct (isVisible d t v); [|apply IH].
  rewrite IH. unfold stamp. simpl. destruct (decide (key = k)) as [->|Hne].
  - rewrite lookup_total_insert_eq. apply length_alter.
  - by rewrite lookup_total_insert_ne.
Qed.

(** Where the key has a version already, the new one is not at index 0 and
    the loop of [get] starts on it: if [isVisible] shows a transaction its
    own open versions, [get k] after [set k v] returns [v]. *)
Lemma set_then_get_later_version c t k v :
  (∀ d u w, txStartID w = id u → txEndID w = 0 → isVisible d u w = true) →
  assertValidTransaction (db c) (tx c) = inr t →
  store (db c) !!! k ≠ [] →
  (execCommand unicodeLower isVisible
     (execCommand unicodeLower isVisible c "set" [k; v]).2 "get" [k]).1
  = Returned v None.
Proof.
  intros Hown Hvalid Hsome.
  destruct (assertValidTransaction_inr _ _ _ Hvalid) as (Htx & Hid & t' & Hlk & Hst).
  rewrite (execCommand_write _ _ c) by auto. unfold exec_write.
  rewrite decide_True by auto. rewrite Hvalid. simpl.
  pose proof (close_loop_frame isVisible t k
    (length (store (db c) !!! k)) (db c) false) as (_ & Ht & _).
  pose proof (close_loop_length t k
    (length (store (db c) !!! k)) (db c) false k) as Hlen.
  destruct (close_loop isVisible t k _ (db c) false) as [d found].
  simpl in *. rewrite execCommand_get. simpl.
  rewrite (assertValidTransaction_pass _ (insert_writeset k t) t');
    [|done|simpl; by rewrite Ht|done].
  simpl. rewrite lookup_total_insert_eq, length_app. simpl.
  replace (length (store d !!! k) + 1 - 1)%nat with (length (store d !!! k))
    by lia.
  rewrite Hlen.
  destruct (length (store (db c) !!! k)) as [|j] eqn:Hj;
    [by apply nil_length_inv in Hj|].
  rewrite (get_loop_first isVisible _ _ _ j (mkValue (id t) 0 v));
    [done| |by apply Hown].
  unfold appended. simpl. rewrite lookup_total_insert_eq.
  apply list_lookup_middle. by rewrite Hlen.
Qed.

End ReadBack.

(** ** The properties on the example runs *)

(** The visibility rule of the specification shows a transaction its own
    open versions, so [set_then_get_later_version] applies to it. *)
Lemma versionVisible_own d u w :
  txStartID w = id u → txEndID w = 0 → versionVisible d u w = true.
Proof.
  intros Hs He. unfold versionVisible, creatorVisible.
  rewrite decide_True by done. simpl. by rewrite decide_True.
Qed.

(** C1, the failing input: on a new database, [begin], [set x 1] and
    [get x] on one connection; the [get] returns the error and not "1". *)
Lemma set_then_get_single_version_witness :
  assertValidTransaction (db started) (tx started) = inr started_tx ∧
  store (db started) !!! "x" = [] ∧
  (execCommand unicodeLower_id versionVisible
     (execCommand unicodeLower_id versionVisible started "set" ["x"; "1"]).2 "get" ["x"]).1 =
    Returned "" (Some "command unimplemented").
Proof.
  split; [vm_compute; reflexivity|]. split; [vm_compute; reflexivity|].
  apply (set_then_get_single_version unicodeLower_id versionVisible started started_tx
           "x" "1"); vm_compute; reflexivity.
Defined.

(** C2, the counterexample: under snapshot isolation two transactions, both
    in progress, set the same key; the first commits, and the commit of the
    second returns no error and leaves it committed, not aborted. *)
Lemma second_committer_commits :
  let s := run unicodeLower_id versionVisible (mkSystem snapshot_database ∅)
             (take 4 two_writers) in
  (isolation <$> sys_conns s !! 0%nat) = Some SnapshotIsolation ∧
  (isolation <$> sys_conns s !! 1%nat) = Some SnapshotIsolation ∧
  (state <$> transactions (sys_db s) !! 1) = Some InProgressTransaction ∧
  (state <$> transactions (sys_db s) !! 2) = Some InProgressTransaction ∧
  (writeset <$> sys_conns s !! 0%nat) = Some {["x"]} ∧
  (writeset <$> sys_conns s !! 1%nat) = Some {["x"]} ∧
  outcomes unicodeLower_id versionVisible s (drop 4 two_writers) =
    [Returned "" None; Returned "" None] ∧
  (state <$> transactions
     (sys_db (run unicodeLower_id versionVisible s (drop 4 two_writers))) !! 2) =
    Some CommittedTransaction.
Proof. vm_compute. repeat split; reflexivity. Qed.

Lemma commit_always_succeeds_witness :
  assertValidTransaction (db deleted) (tx deleted) = inr deleted_tx ∧
  execCommand unicodeLower_id versionVisible deleted "commit" [] =
    (Returned "" None,
     mkConnection None
       (set_transactions
          (<[id deleted_tx := set_state CommittedTransaction deleted_tx]>
             (transactions (db deleted)))
          (db deleted))).
Proof.
  split; [vm_compute; reflexivity|].
  apply (commit_always_succeeds unicodeLower_id versionVisible deleted deleted_tx []).
  vm_compute; reflexivity.
Defined.

Lemma table_is_read_committed_witness :
  transactions (sys_db (run unicodeLower_id versionVisible initial write_delete_abort)) !! 2 =
    Some (mkTransaction 2 ReadCommittedIsolation InProgressTransaction
            {[1]} ∅ ∅) ∧
  isolation (mkTransaction 2 ReadCommittedIsolation InProgressTransaction
               {[1]} ∅ ∅) = ReadCommittedIsolation.
Proof.
  split; [vm_compute; reflexivity|].
  apply (table_is_read_committed unicodeLower_id versionVisible write_delete_abort 2).
  vm_compute; reflexivity.
Defined.

(** C4, the failing input: on a new database, [begin] and then [get x]; and
    the same after the transaction has written and deleted the key. *)
Lemma get_nothing_visible_witness :
  execCommand unicodeLower_id versionVisible started "get" ["x"] =
    (Returned "" (Some "command unimplemented"),
     mkConnection (Some (insert_readset "x" started_tx)) (db started)) ∧
  execCommand unicodeLower_id versionVisible deleted "get" ["x"] =
    (Returned "" (Some "command unimplemented"),
     mkConnection (Some (insert_readset "x" deleted_tx)) (db deleted)).
Proof.
  split.
  - apply (get_nothing_visible unicodeLower_id versionVisible started started_tx "x" []);
      [vm_compute; reflexivity|].
    intros j w Hw. vm_compute in Hw. by destruct j.
  - apply (get_nothing_visible unicodeLower_id versionVisible deleted deleted_tx "x" []);
      [vm_compute; reflexivity|].
    intros [|[|j]] w Hw; vm_compute in Hw; [| |by destruct j];
      injection Hw as <-; vm_compute; reflexivity.
Defined.


Lemma begin_snapshot_witness :
  tx second = None ∧
  transactions (db second) !! nextTransactionID (db second) = None ∧
  ∃ t, tx (execCommand unicodeLower_id versionVisible second "begin" []).2 = Some t ∧
       id t = 2 ∧ state t = InProgressTransaction ∧
       inProgress t = {[1]}.
Proof.
  split; [reflexivity|]. split; [vm_compute; reflexivity|].
  destruct (begin_snapshot unicodeLower_id versionVisible second [])
    as (t & Htx & Hid & Hst & _ & _ & _ & _ & Hsnap);
    [reflexivity|vm_compute; reflexivity|].
  exists t. split_and!; [done..|].
  rewrite Hsnap, Hid. vm_compute. reflexivity.
Defined.

(** C7, the counterexample: a second [begin] on a connection that has a
    transaction, and a [commit] on a connection that has none, do not
    return an error: they panic. *)
Lemma misuse_is_a_panic :
  outcomes unicodeLower_id versionVisible initial misuse =
    [Returned "1" None;
     Panicked (AssertEqFailed "no running transactions");
     Panicked NilDereference].
Proof. vm_compute. reflexivity. Qed.

Lemma misuse_panics_witness :
  execCommand unicodeLower_id versionVisible started "BEGIN" [] =
    (Panicked (AssertEqFailed "no running transactions"), started) ∧
  execCommand unicodeLower_id versionVisible second "get" ["x"] =
    (Panicked NilDereference, second).
Proof.
  split.
  - apply (misuse_panics unicodeLower_id versionVisible started "BEGIN" []).
    left. split; [reflexivity|]. vm_compute. eauto.
  - apply (misuse_panics unicodeLower_id versionVisible second "get" ["x"]).
    right. split; [|reflexivity]. apply elem_of_cons. by left.
Defined.

Lemma abort_changes_state_only_witness :
  assertValidTransaction (db deleted) (tx deleted) = inr deleted_tx ∧
  store (db (execCommand unicodeLower_id versionVisible deleted "abort" []).2) !!! "x" =
    [mkValue 1 1 "1"; mkValue 1 1 "2"] ∧
  (state <$> transactions
     (db (execCommand unicodeLower_id versionVisible deleted "abort" []).2) !! 1) =
    Some AbortedTransaction.
Proof.
  split; [vm_compute; reflexivity|].
  destruct (abort_changes_state_only unicodeLower_id versionVisible deleted deleted_tx []
              deleted "abort" []) as (Habort & Hstore & _);
    [vm_compute; reflexivity|].
  rewrite Hstore, Habort. split; vm_compute; reflexivity.
Defined.

(** C9, the failing input: on a new database, [begin] and then [delete x];
    the text of the error does not name the key. *)
Lemma delete_nothing_visible_witness :
  (execCommand unicodeLower_id versionVisible started "delete" ["x"]).1 =
    Returned "" (Some "delete failed: key %!q(MISSING) not found") ∧
  (execCommand unicodeLower_id versionVisible started "delete" ["another key"]).1 =
    Returned "" (Some "delete failed: key %!q(MISSING) not found").
Proof.
  split.
  - apply (delete_nothing_visible unicodeLower_id versionVisible started started_tx "x" []);
      [vm_compute; reflexivity|].
    intros j w Hw. vm_compute in Hw. by destruct j.
  - apply (delete_nothing_visible unicodeLower_id versionVisible started started_tx
             "another key" []); [vm_compute; reflexivity|].
    intros j w Hw. vm_compute in Hw. by destruct j.
Defined.

Lemma delete_failed_unchanged_witness :
  (execCommand unicodeLower_id versionVisible deleted "delete" ["x"]).1 =
    Returned "" (Some delete_failed_error) ∧
  (execCommand unicodeLower_id versionVisible deleted "delete" ["x"]).2 = deleted.
Proof.
  split; [vm_compute; reflexivity|].
  apply (delete_failed_unchanged unicodeLower_id versionVisible deleted ["x"]).
  vm_compute; reflexivity.
Defined.

(** * Further properties of the code *)

(** ** The snapshot and the dispatch *)

(** X1.  The set returned by [inProgress] holds an id exactly when the
    table maps that id to a transaction whose state is in progress. *)
Theorem inProgress_lists_in_progress (d : Database) (i : N) :
  i ∈ Database_inProgress d ↔
  ∃ t, transactions d !! i = Some t ∧ state t = InProgressTransaction.
Proof. apply elem_of_Database_inProgress. Qed.

Section Dispatch.

Variable unicodeLower : string → string.
Variable isVisible : Database → Transaction → Value → bool.

(** X2.  A command whose lower-case form is none of [begin], [abort],
    [commit], [get], [set] and [delete] returns the empty string and the
    error "command unimplemented"; it runs no assertion, so this holds on a
    connection without a transaction too, and it changes nothing. *)
Theorem unknown_command_unimplemented (c : Connection) (command : string)
    (args : list string) :
  ToLower unicodeLower command ∉ known_commands →
  execCommand unicodeLower isVisible c command args =
    (Returned "" (Some "command unimplemented"), c).
Proof.
  intros Hnot. unfold execCommand, exec_write, known_commands in *.
  do 4 (case_decide as Hcmd;
        [exfalso; apply Hnot; rewrite Hcmd;
         repeat (apply elem_of_cons; (by left) || right)|clear Hcmd]).
  case_decide as Hcmd; [|done]. exfalso. apply Hnot.
  destruct Hcmd as [-> | ->]; repeat (apply elem_of_cons; (by left) || right).
Qed.

(** What the loop of [get] returns, started at an index inside the list:
    the payload of the visible version with the largest index between 1
    and the start, or nothing if there is none. *)
Lemma get_loop_spec d t key i :
  (i < length (store d !!! key) ∨ i = 0)%nat →
  match get_loop isVisible d t key i with
  | Some v =>
    ∃ j w, (1 ≤ j ≤ i)%nat ∧ (store d !!! key) !! j = Some w ∧
           value w = v ∧ isVisible d t w = true ∧
           ∀ j' w', (j < j' ≤ i)%nat → (store d !!! key) !! j' = Some w' →
                    isVisible d t w' = false
  | None =>
    ∀ j w, (1 ≤ j ≤ i)%nat → (store d !!! key) !! j = Some w →
           isVisible d t w = false
  end.
Proof.
  induction i as [|i IH]; intros Hi; simpl; [intros j w; lia|].
  destruct Hi as [Hi|Hi]; [|lia].
  destruct (lookup_lt_is_Some_2 _ _ Hi) as [w Hw]. rewrite Hw.
  destruct (isVisible d t w) eqn:Hvis.
  - exists (S i), w. split_and!; [lia|lia|done..|]. intros j' w'. lia.
  - specialize (IH ltac:(lia)). destruct (get_loop isVisible d t key i).
    + destruct IH as (j & u & Hj & Hu & Hval & Hv & Hnewer).
      exists j, u. split_and!; [lia|lia|done..|].
      intros j' w' Hj' Hw'. destruct (decide (j' = S i)) as [->|Hne].
      * rewrite Hw in Hw'. by injection Hw' as <-.
      * apply (Hnewer j'); [lia|done].
    + intros j u Hj Hu. destruct (decide (j = S i)) as [->|Hne].
      * rewrite Hw in Hu. by injection Hu as <-.
      * apply (IH j); [lia|done].
Qed.

(** X3.  When [get] returns a value and no error, the value is the payload
    of a version of the key at an index of at least 1 that is visible to
    the transaction (with the key in its readset), and every version of
    the key after it is not visible: [get] returns the newest visible
    version, the one at index 0 left aside. *)
Theorem get_returns_newest_visible (c c' : Connection)
    (args : list string) (v : string) :
  execCommand unicodeLower isVisible c "get" args = (Returned v None, c') →
  ∃ t key j w,
    args !! 0%nat = Some key ∧
    assertValidTransaction (db c) (tx c) = inr t ∧
    c' = mkConnection (Some (insert_readset key t)) (db c) ∧
    (1 ≤ j)%nat ∧ (store (db c) !!! key) !! j = Some w ∧ value w = v ∧
    isVisible (db c) (insert_readset key t) w = true ∧
    ∀ j' w', (j < j')%nat → (store (db c) !!! key) !! j' = Some w' →
             isVisible (db c) (insert_readset key t) w' = false.
Proof.
  rewrite execCommand_get.
  destruct (assertValidTransaction (db c) (tx c)) as [p|t] eqn:Hvalid; [done|].
  destruct (args !! 0%nat) as [key|]; [|done]. simpl.
  pose proof (get_loop_spec (db c) (insert_readset key t) key
    (length (store (db c) !!! key) - 1)) as Hspec.
  destruct (get_loop _ _ _ _ _) as [v0|]; [|done].
  intros [= -> <-].
  destruct Hspec as (j & w & Hj & Hw & Hval & Hvis & Hnewer).
  { destruct (length (store (db c) !!! key)); [right|left]; lia. }
  exists t, key, j, w. split_and!; [done|done|done|lia|done..|].
  intros j' w' Hj' Hw'. apply (Hnewer j'); [|done].
  apply lookup_lt_Some in Hw'. lia.
Qed.

(** X4.  [get] does not look at index 0: in a valid, in-progress
    transaction, if no version of the key at an index of at least 1 is
    visible, [get] returns the error "command unimplemented", whether or
    not the version at index 0 is visible. *)
Theorem get_ignores_oldest_version (c : Connection) (t : Transaction)
    (k : string) (rest : list string) :
  assertValidTransaction (db c) (tx c) = inr t →
  (∀ j w, (1 ≤ j)%nat → (store (db c) !!! k) !! j = Some w →
          isVisible (db c) (insert_readset k t) w = false) →
  execCommand unicodeLower isVisible c "get" (k :: rest) =
    (Returned "" (Some "command unimplemented"),
     mkConnection (Some (insert_readset k t)) (db c)).
Proof.
  intros Hvalid Hnone. rewrite execCommand_get, Hvalid. simpl.
  pose proof (get_loop_spec (db c) (insert_readset k t) k
    (length (store (db c) !!! k) - 1)) as Hspec.
  destruct (get_loop _ _ _ _ _) as [v0|]; [|done].
  destruct Hspec as (j & w & Hj & Hw & _ & Hvis & _).
  { destruct (length (store (db c) !!! k)); [right|left]; lia. }
  rewrite (Hnone j w) in Hvis; [done|lia|done].
Qed.

(** X5.  [get] never changes the database, whatever it returns and also
    when it panics; of the connection it changes at most the readset of
    the transaction, to which it adds the key. *)
Theorem get_leaves_database (c : Connection) (args : list string) :
  db (execCommand unicodeLower isVisible c "get" args).2 = db c ∧
  (tx (execCommand unicodeLower isVisible c "get" args).2 = tx c ∨
   ∃ t key, tx c = Some t ∧ args !! 0%nat = Some key ∧
            tx (execCommand unicodeLower isVisible c "get" args).2 =
              Some (insert_readset key t)).
Proof.
  rewrite execCommand_get.
  destruct (assertValidTransaction (db c) (tx c)) as [p|t] eqn:Hvalid;
    [by split; [|left]|].
  destruct (assertValidTransaction_inr _ _ _ Hvalid) as (Htx & _).
  destruct (args !! 0%nat) as [key|]; [|by split; [|left]]. simpl.
  destruct (get_loop _ _ _ _ _); (split; [done|right; eauto]).
Qed.

End Dispatch.

(** ** Writes *)

Section Writes.

Variable unicodeLower : string → string.
Variable isVisible : Database → Transaction → Value → bool.

(** The loop of [set] and [delete] leaves the other keys alone. *)
Lemma close_loop_other_key t key n d found k :
  k ≠ key →
  store (close_loop isVisible t key n d found).1 !! k = store d !! k.
Proof.
  intros Hne. revert d found.
  induction n as [|i IH]; intros d found; simpl; [done|].
  destruct ((store d !!! key) !! i) as [v|]; [|done].
  destruct (isVisible d t v); [|apply IH].
  rewrite IH. unfold stamp. simpl. by rewrite lookup_insert_ne.
Qed.

Lemma close_loop_found_true t key n d :
  (close_loop isVisible t key n d true).2 = true.
Proof.
  revert d. induction n as [|i IH]; intros d; simpl; [done|].
  destruct ((store d !!! key) !! i) as [v|]; [|done].
  by destruct (isVisible d t v).
Qed.

(** [found] comes out true exactly when one of the versions the loop goes
    through is visible in the database the loop starts from. *)
Lemma close_loop_found t key n d :
  (n ≤ length (store d !!! key))%nat →
  (close_loop isVisible t key n d false).2 = true ↔
  ∃ j w, (j < n)%nat ∧ (store d !!! key) !! j = Some w ∧
         isVisible d t w = true.
Proof.
  induction n as [|i IH]; intros Hn; simpl.
  { split; [done|]. intros (j & _ & Hj & _). lia. }
  destruct (lookup_lt_is_Some_2 (store d !!! key) i) as [v Hv]; [lia|].
  rewrite Hv. destruct (isVisible d t v) eqn:Hvis.
  - rewrite close_loop_found_true. split; [|done]. intros _.
    exists i, v. split_and!; [lia|done..].
  - rewrite IH by lia. split.
    + intros (j & w & Hj & Hw & Hw'). exists j, w. split_and!; [lia|done..].
    + intros (j & w & Hj & Hw & Hw'). exists j, w. split_and!; [|done..].
      destruct (decide (j = i)) as [->|Hne]; [|lia].
      rewrite Hv in Hw. injection Hw as <-. congruence.
Qed.

(** With a visibility rule that does not read the store, the loop sets the
    end id of exactly the versions that are visible when it starts. *)
Lemma close_loop_lookup_exact t key n d found j :
  reads_table_only isVisible →
  (n ≤ length (store d !!! key))%nat →
  (store (close_loop isVisible t key n d found).1 !!! key) !! j =
  if decide (j < n)%nat
  then close_visible isVisible d t <$> (store d !!! key) !! j
  else (store d !!! key) !! j.
Proof.
  intros Htable. revert d found.
  induction n as [|i IH]; intros d found Hn; simpl; [done|].
  destruct (lookup_lt_is_Some_2 (store d !!! key) i) as [v Hv]; [lia|].
  rewrite Hv. destruct (isVisible d t v) eqn:Hvis.
  - rewrite IH.
    2:{ unfold stamp. simpl. rewrite lookup_total_insert_eq, length_alter. lia. }
    rewrite stamp_lookup.
    assert (∀ w, close_visible isVisible (stamp d key i (id t)) t w =
                 close_visible isVisible d t w) as Hsame.
    { intros w. unfold close_visible.
      by rewrite (Htable (stamp d key i (id t)) d). }
    destruct (decide (j = i)) as [->|Hne].
    + rewrite decide_False by lia. rewrite decide_True by done.
      rewrite decide_True by lia. rewrite Hv. simpl.
      unfold close_visible. by rewrite Hvis.
    + rewrite (decide_False (P := key = key ∧ j = i)) by (by intros [_ ?]).
      repeat case_decide; try lia; [|done].
      destruct ((store d !!! key) !! j); simpl; [|done]. by rewrite Hsame.
  - rewrite IH by lia. repeat case_decide; try lia; try done.
    assert (j = i) as -> by lia. rewrite Hv. simpl.
    unfold close_visible. by rewrite Hvis.
Qed.

End Writes.

Section WriteEffects.

Variable unicodeLower : string → string.
Variable isVisible : Database → Transaction → Value → bool.

(** [exec_write] on a key and with the assertion passed, in terms of the
    loop. *)
Lemma exec_write_valid c t command k rest :
  command = "set" ∨ command = "delete" →
  assertValidTransaction (db c) (tx c) = inr t →
  let r := close_loop isVisible t k (length (store (db c) !!! k)) (db c)
             false in
  exec_write isVisible c command (k :: rest) =
  if bool_decide (command = "delete") && negb r.2 then
    (Returned "" (Some delete_failed_error), mkConnection (Some t) r.1)
  else if decide (command = "set") then
    match rest !! 0%nat with
    | None =>
      (Panicked IndexOutOfRange,
       mkConnection (Some (insert_writeset k t)) r.1)
    | Some v =>
      (Returned v None,
       mkConnection (Some (insert_writeset k t))
         (appended k (mkValue (id t) 0 v) r.1))
    end
  else (Returned "" None, mkConnection (Some (insert_writeset k t)) r.1).
Proof.
  intros Hcmd Hvalid. unfold exec_write.
  rewrite decide_True by done. rewrite Hvalid. simpl.
  by destruct (close_loop isVisible t k _ (db c) false).
Qed.

(** X6.  In a valid, in-progress transaction, [set k v] returns [v] and no
    error, adds [k] to the writeset of the connection's transaction, and
    makes the list of versions of [k] one longer: the new last version has
    the id of the transaction as its start id, end id 0 and payload [v]. *)
Theorem set_appends_version (c : Connection) (t : Transaction)
    (k v : string) (rest : list string) :
  assertValidTransaction (db c) (tx c) = inr t →
  let r := execCommand unicodeLower isVisible c "set" (k :: v :: rest) in
  r.1 = Returned v None ∧
  tx r.2 = Some (insert_writeset k t) ∧
  length (store (db r.2) !!! k) = S (length (store (db c) !!! k)) ∧
  (store (db r.2) !!! k) !! length (store (db c) !!! k) =
    Some (mkValue (id t) 0 v).
Proof.
  intros Hvalid. cbv zeta.
  rewrite execCommand_write, (exec_write_valid c t) by auto. simpl.
  split_and!; [done..| |]; unfold appended; simpl;
    rewrite lookup_total_insert_eq.
  - rewrite length_app, close_loop_length. simpl. lia.
  - apply list_lookup_middle. by rewrite close_loop_length.
Qed.

(** X7.  A [set] or [delete] touches no key but its first argument: the
    versions of every other key, the transaction table, the id counter and
    the default isolation level are as before, whatever the call returns
    and also when it panics. *)
Theorem write_touches_only_its_key (c : Connection) (command : string)
    (args : list string) (k' : string) :
  ToLower unicodeLower command = "set" ∨ ToLower unicodeLower command = "delete" →
  args !! 0%nat ≠ Some k' →
  let c' := (execCommand unicodeLower isVisible c command args).2 in
  store (db c') !! k' = store (db c) !! k' ∧
  transactions (db c') = transactions (db c) ∧
  nextTransactionID (db c') = nextTransactionID (db c) ∧
  defaultIsolation (db c') = defaultIsolation (db c).
Proof.
  intros Hcmd Hkey. cbv zeta.
  rewrite (execCommand_lowered _ _ _ command (ToLower unicodeLower command))
    by (done || by destruct Hcmd as [-> | ->]).
  rewrite execCommand_write by done.
  destruct (assertValidTransaction (db c) (tx c)) as [p|t] eqn:Hvalid.
  { unfold exec_write. rewrite decide_True by done. by rewrite Hvalid. }
  destruct args as [|k rest].
  { unfold exec_write. rewrite decide_True by done. by rewrite Hvalid. }
  assert (k' ≠ k) as Hne by (intros ->; by apply Hkey).
  rewrite (exec_write_valid c t) by done.
  pose proof (close_loop_other_key isVisible t k
    (length (store (db c) !!! k)) (db c) false k' Hne) as Hother.
  pose proof (close_loop_frame isVisible t k
    (length (store (db c) !!! k)) (db c) false) as (Hd & Ht & Hn).
  destruct (bool_decide (ToLower unicodeLower command = "delete") && negb _); [done|].
  case_decide; [|done].
  destruct (rest !! 0%nat); [|done]. simpl.
  by rewrite lookup_insert_ne.
Qed.

(** X8.  With a visibility rule that does not read the store, a [set] or
    [delete] in a valid, in-progress transaction closes exactly the
    versions of its key that are visible to the transaction when it is
    called: each of them gets the id of the transaction as its end id, and
    the other versions of the key are unchanged. *)
Theorem write_closes_exactly_visible (c : Connection) (t : Transaction)
    (command k : string) (rest : list string) (j : nat) (w : Value) :
  reads_table_only isVisible →
  command = "set" ∨ command = "delete" →
  assertValidTransaction (db c) (tx c) = inr t →
  (store (db c) !!! k) !! j = Some w →
  (store (db (execCommand unicodeLower isVisible c command (k :: rest)).2) !!! k) !! j =
    Some (close_visible isVisible (db c) t w).
Proof.
  intros Htable Hcmd Hvalid Hw.
  rewrite execCommand_write, (exec_write_valid c t) by done.
  pose proof (close_loop_lookup_exact isVisible t k
    (length (store (db c) !!! k)) (db c) false j Htable ltac:(lia)) as Hlk.
  rewrite decide_True in Hlk by (by apply lookup_lt_Some in Hw).
  rewrite Hw in Hlk. simpl in Hlk.
  destruct (bool_decide (command = "delete") && negb _); [done|].
  case_decide; [|done].
  destruct (rest !! 0%nat); [|done]. simpl.
  rewrite lookup_total_insert_eq. by apply lookup_app_l_Some.
Qed.

(** X9.  In a valid, in-progress transaction, [delete k] succeeds (empty
    string, no error) exactly when some version of [k] is visible to the
    transaction, and returns its not-found error exactly when none is. *)
Theorem delete_succeeds_iff_visible (c : Connection) (t : Transaction)
    (k : string) (rest : list string) :
  assertValidTransaction (db c) (tx c) = inr t →
  ((∃ j w, (store (db c) !!! k) !! j = Some w ∧
           isVisible (db c) t w = true) ∧
   (execCommand unicodeLower isVisible c "delete" (k :: rest)).1 = Returned "" None) ∨
  ((∀ j w, (store (db c) !!! k) !! j = Some w →
           isVisible (db c) t w = false) ∧
   (execCommand unicodeLower isVisible c "delete" (k :: rest)).1 =
     Returned "" (Some delete_failed_error)).
Proof.
  intros Hvalid.
  rewrite execCommand_write, (exec_write_valid c t) by auto.
  pose proof (close_loop_found isVisible t k
    (length (store (db c) !!! k)) (db c) ltac:(lia)) as Hfound.
  destruct (close_loop isVisible t k _ (db c) false).2; simpl.
  - left. split; [|done]. destruct Hfound as [Hex _].
    destruct Hex as (j & w & _ & Hw & Hvis); eauto.
  - right. split; [|done]. intros j w Hw.
    destruct (isVisible (db c) t w) eqn:Hvis; [|done].
    destruct Hfound as [_ Hex]. symmetry. apply Hex.
    exists j, w. split_and!; [|done..]. by apply lookup_lt_Some in Hw.
Qed.

(** A [set] or [delete] that returns leaves the transaction of the
    connection valid. *)
Lemma write_keeps_valid c t command k rest res err :
  command = "set" ∨ command = "delete" →
  assertValidTransaction (db c) (tx c) = inr t →
  (execCommand unicodeLower isVisible c command (k :: rest)).1 = Returned res err →
  ∃ t', assertValidTransaction
          (db (execCommand unicodeLower isVisible c command (k :: rest)).2)
          (tx (execCommand unicodeLower isVisible c command (k :: rest)).2) = inr t' ∧
        id t' = id t ∧ isolation t' = isolation t ∧
        inProgress t' = inProgress t.
Proof.
  intros Hcmd Hvalid.
  destruct (assertValidTransaction_inr _ _ _ Hvalid)
    as (Htx & Hid & u & Hlk & Hst).
  rewrite execCommand_write, (exec_write_valid c t) by done.
  pose proof (close_loop_frame isVisible t k
    (length (store (db c) !!! k)) (db c) false) as (_ & Ht & _).
  destruct (bool_decide (command = "delete") && negb _); simpl.
  { intros _. exists t. split; [|done].
    apply (assertValidTransaction_pass _ _ u); [done| |done].
    by rewrite Ht. }
  case_decide.
  - destruct (rest !! 0%nat); [|done]. simpl. intros _.
    exists (insert_writeset k t). split; [|done].
    apply (assertValidTransaction_pass _ _ u); [done| |done].
    simpl. by rewrite Ht.
  - simpl. intros _. exists (insert_writeset k t). split; [|done].
    apply (assertValidTransaction_pass _ _ u); [done| |done].
    simpl. by rewrite Ht.
Qed.

End WriteEffects.

(** ** Writes followed by reads, and short argument lists *)

Section Compositions.

Variable unicodeLower : string → string.
Variable isVisible : Database → Transaction → Value → bool.

(** After the loop of [set] and [delete], no version of the key is visible
    to the transaction, if the visibility rule reads the table and the
    view of the transaction only and hides the versions the transaction
    has closed. *)
Lemma closed_versions_invisible t t1 k d found j w' :
  reads_table_only isVisible → reads_view_only isVisible →
  hides_own_closed isVisible →
  0 < id t →
  id t1 = id t → isolation t1 = isolation t → inProgress t1 = inProgress t →
  let d' := (close_loop isVisible t k (length (store d !!! k)) d found).1 in
  (store d' !!! k) !! j = Some w' → isVisible d' t1 w' = false.
Proof.
  intros Htable Hview Hhide Hpos Hid Hiso Hsnap d' Hw'. subst d'.
  pose proof (close_loop_frame isVisible t k (length (store d !!! k)) d found)
    as (_ & Ht & _).
  pose proof Hw' as Hlen. apply lookup_lt_Some in Hlen.
  rewrite close_loop_length in Hlen.
  rewrite close_loop_lookup_exact in Hw' by (done || lia).
  rewrite decide_True in Hw' by done.
  destruct ((store d !!! k) !! j) as [w|]; [|done].
  injection Hw' as <-. unfold close_visible.
  destruct (isVisible d t w) eqn:Hvis.
  - apply Hhide; by rewrite Hid.
  - rewrite (Htable _ d) by done. by rewrite (Hview d t1 t).
Qed.

(** X10.  With a visibility rule that reads the table and the view of the
    transaction only and hides the versions the transaction has closed, a
    [get k] that follows a [delete k] in the same valid transaction finds
    nothing, whether or not the [delete] found something to delete: it
    returns the error "command unimplemented". *)
Theorem delete_then_get_finds_nothing (c : Connection) (t : Transaction)
    (k : string) (rest rest' : list string) :
  reads_table_only isVisible → reads_view_only isVisible →
  hides_own_closed isVisible →
  assertValidTransaction (db c) (tx c) = inr t →
  (execCommand unicodeLower isVisible
     (execCommand unicodeLower isVisible c "delete" (k :: rest)).2 "get" (k :: rest')).1 =
    Returned "" (Some "command unimplemented").
Proof.
  intros Htable Hview Hhide Hvalid.
  destruct (assertValidTransaction_inr _ _ _ Hvalid)
    as (Htx & Hid & u & Hlk & Hst).
  rewrite (execCommand_write _ _ c), (exec_write_valid _ c t) by auto.
  pose proof (close_loop_frame isVisible t k
    (length (store (db c) !!! k)) (db c) false) as (_ & Ht & _).
  pose proof (λ t1, closed_versions_invisible t t1 k (db c) false)
    as Hnone.
  destruct (bool_decide ("delete" = "delete") && negb _); simpl;
    rewrite execCommand_get; simpl.
  - rewrite (assertValidTransaction_pass _ t u) by (done || by rewrite Ht).
    simpl. rewrite get_loop_none; [done|]. intros j w.
    by apply Hnone.
  - rewrite (assertValidTransaction_pass _ (insert_writeset k t) u)
      by (done || (simpl; by rewrite Ht)).
    simpl. rewrite get_loop_none; [done|]. intros j w.
    by apply Hnone.
Qed.

Lemma set_store_nonempty c t k v rest :
  assertValidTransaction (db c) (tx c) = inr t →
  store (db (execCommand unicodeLower isVisible c "set" (k :: v :: rest)).2) !!! k ≠ [].
Proof.
  intros Hvalid.
  rewrite execCommand_write, (exec_write_valid _ c t) by auto. simpl.
  unfold appended. simpl. rewrite lookup_total_insert_eq.
  intros Hnil. by apply app_nil in Hnil as [_ ?].
Qed.

(** X11.  With a visibility rule that shows a transaction its own open
    versions, a transaction that sets a key twice reads the second value
    back, whatever versions the key had before. *)
Theorem overwrite_then_get (c : Connection) (t : Transaction)
    (k v1 v2 : string) :
  (∀ d u w, txStartID w = id u → txEndID w = 0 → isVisible d u w = true) →
  assertValidTransaction (db c) (tx c) = inr t →
  let c1 := (execCommand unicodeLower isVisible c "set" [k; v1]).2 in
  let c2 := (execCommand unicodeLower isVisible c1 "set" [k; v2]).2 in
  (execCommand unicodeLower isVisible c2 "get" [k]).1 = Returned v2 None.
Proof.
  intros Hown Hvalid c1 c2.
  destruct (write_keeps_valid unicodeLower isVisible c t "set" k [v1] v1 None)
    as (t1 & Hvalid1 & _); [by left|done| |].
  { rewrite execCommand_write, (exec_write_valid _ c t) by auto. done. }
  apply (set_then_get_later_version unicodeLower isVisible c1 t1 k v2 Hown Hvalid1).
  by apply (set_store_nonempty c t).
Qed.

(** X12.  In a valid, in-progress transaction, a [get], [set] or [delete]
    without arguments panics on the index of the key and changes
    nothing. *)
Theorem missing_key_panics (c : Connection) (t : Transaction)
    (command : string) :
  command ∈ ["get"; "set"; "delete"] →
  assertValidTransaction (db c) (tx c) = inr t →
  execCommand unicodeLower isVisible c command [] = (Panicked IndexOutOfRange, c).
Proof.
  intros Hcmd Hvalid.
  repeat (apply elem_of_cons in Hcmd as [-> | Hcmd]);
    [| | |by apply elem_of_nil in Hcmd].
  - by rewrite execCommand_get, Hvalid.
  - rewrite execCommand_write by auto. unfold exec_write.
    rewrite decide_True by auto. by rewrite Hvalid.
  - rewrite execCommand_write by auto. unfold exec_write.
    rewrite decide_True by auto. by rewrite Hvalid.
Qed.

(** X13.  In a valid, in-progress transaction, a [set] with a key and no
    value panics on the index of the value after it has done the work of a
    [delete]: the key is in the writeset of the connection's transaction
    and the database is the one [delete] of that key leaves. *)
Theorem set_without_value_panics (c : Connection) (t : Transaction)
    (k : string) :
  assertValidTransaction (db c) (tx c) = inr t →
  let r := execCommand unicodeLower isVisible c "set" [k] in
  r.1 = Panicked IndexOutOfRange ∧
  tx r.2 = Some (insert_writeset k t) ∧
  db r.2 = db (execCommand unicodeLower isVisible c "delete" [k]).2.
Proof.
  intros Hvalid. cbv zeta.
  rewrite !execCommand_write, !(exec_write_valid _ c t) by auto. simpl.
  split_and!; [done..|].
  by destruct (negb _).
Qed.

End Compositions.

(** ** [mustExecCommand] *)

Section MustProperties.

Variable unicodeLower : string → string.
Variable isVisible : Database → Transaction → Value → bool.

(** X14.  In a valid, in-progress transaction and for a key that has no
    version, [mustExecCommand] panics with "unexpected error" on [get]
    (the key is by then in the readset) and on [delete] (nothing has
    changed), and returns the value on [set]. *)
Theorem must_on_missing_key (c : Connection) (t : Transaction)
    (k v : string) :
  assertValidTransaction (db c) (tx c) = inr t →
  store (db c) !!! k = [] →
  mustExecCommand unicodeLower isVisible c "get" [k] =
    (inl (AssertEqFailed "unexpected error"),
     mkConnection (Some (insert_readset k t)) (db c)) ∧
  mustExecCommand unicodeLower isVisible c "delete" [k] =
    (inl (AssertEqFailed "unexpected error"), c) ∧
  (mustExecCommand unicodeLower isVisible c "set" [k; v]).1 = inr v.
Proof.
  intros Hvalid Hempty.
  destruct (assertValidTransaction_inr _ _ _ Hvalid) as (Htx & _).
  unfold mustExecCommand. split_and!.
  - rewrite execCommand_get, Hvalid. simpl. by rewrite Hempty.
  - rewrite execCommand_write, (exec_write_valid _ c t) by auto.
    rewrite Hempty. simpl. by rewrite Connection_eta.
  - rewrite execCommand_write, (exec_write_valid _ c t) by auto.
    by rewrite Hempty.
Qed.

End MustProperties.

(** ** Invariants of runs *)

Lemma table_copy_state t : state (table_copy t) = InProgressTransaction.
Proof. done. Qed.

(** A connection's transaction that keeps its id, state and view stays
    valid when the table does not change. *)
Lemma connections_valid_update conns n d d' t t1 :
  conns !! n = Some t →
  id t1 = id t → state t1 = state t → table_copy t1 = table_copy t →
  transactions d' = transactions d →
  connections_valid_in conns d →
  connections_valid_in (<[n:=t1]> conns) d'.
Proof.
  intros Hn Hid Hst Hcopy Ht [Hval Hdist]. split.
  - intros m u. rewrite lookup_insert. case_decide as Hm.
    + intros [= <-]. destruct (Hval _ _ Hn) as (? & ? & ?).
      rewrite Hid, Hst, Hcopy, Ht. done.
    + intros Hu. rewrite Ht. by apply (Hval m).
  - intros m1 m2 u1 u2. rewrite !lookup_insert.
    repeat case_decide; subst; try done.
    + intros [= <-] Hu2 Heq. apply (Hdist _ _ _ _ Hn Hu2). congruence.
    + intros Hu1 [= <-] Heq. apply (Hdist _ _ _ _ Hu1 Hn). congruence.
    + apply Hdist.
Qed.

Section RunInvariants.

Variable unicodeLower : string → string.
Variable isVisible : Database → Transaction → Value → bool.

Lemma Effect_connections_valid conns n c command c' :
  Effect isVisible c command c' → tx c = conns !! n →
  connections_valid_in conns (db c) → ids_below_next (db c) →
  connections_valid_in
    (match tx c' with
     | Some t => <[n:=t]> conns
     | None => delete n conns
     end) (db c').
Proof.
  intros Heff Htx Hvalid [Hone Hbelow].
  destruct Heff as [| |? t ? Hv|? t ? Hv|? t key Hv|? t key Hv|? t key v Hv].
  - rewrite Htx. destruct (conns !! n) eqn:Hn;
      [by rewrite insert_id|by rewrite delete_id].
  - destruct Hvalid as [Hval Hdist]. rewrite Htx in H. simpl. split.
    + intros m u. rewrite lookup_insert. case_decide as Hm.
      * intros [= <-]. simpl. split_and!; [lia|done|].
        by rewrite lookup_insert_eq.
      * intros Hu. destruct (Hval _ _ Hu) as (Hid & Hst & Hlk).
        split_and!; [done..|]. simpl. rewrite lookup_insert_ne; [done|].
        assert (id u < nextTransactionID (db c)); [|lia].
        apply Hbelow. by rewrite Hlk.
    + assert (∀ m u, conns !! m = Some u → id u ≠ nextTransactionID (db c))
        as Hlt.
      { intros m u Hu. destruct (Hval _ _ Hu) as (_ & _ & Hlk).
        assert (id u < nextTransactionID (db c)); [|lia].
        apply Hbelow. by rewrite Hlk. }
      intros m1 m2 u1 u2. rewrite !lookup_insert.
      repeat case_decide; subst; try done.
      * intros [= <-] Hu2 Heq. simpl in Heq. symmetry in Heq.
        by apply Hlt in Hu2.
      * intros Hu1 [= <-] Heq. simpl in Heq. by apply Hlt in Hu1.
      * apply Hdist.
  - destruct (assertValidTransaction_inr _ _ _ Hv) as (Hc & _).
    rewrite Hc in Htx. symmetry in Htx.
    destruct Hvalid as [Hval Hdist]. simpl. split.
    + intros m u. rewrite lookup_delete. case_decide as Hm; [done|].
      intros Hu. destruct (Hval _ _ Hu) as (Hid & Hst & Hlk).
      split_and!; [done..|]. simpl. rewrite lookup_insert_ne; [done|].
      intros Heq. apply Hm. by apply (Hdist _ _ _ _ Htx Hu).
    + intros m1 m2 u1 u2. rewrite !lookup_delete.
      repeat case_decide; try done. apply Hdist.
  - destruct (assertValidTransaction_inr _ _ _ Hv) as (Hc & _).
    rewrite Hc in Htx. symmetry in Htx. simpl.
    by apply (connections_valid_update conns n (db c) (db c) t).
  - destruct (assertValidTransaction_inr _ _ _ Hv) as (Hc & _).
    rewrite Hc in Htx. symmetry in Htx. simpl.
    apply (connections_valid_update conns n (db c) _ t); try done.
    by destruct (close_loop_frame isVisible t key
                   (length (store (db c) !!! key)) (db c) false)
      as (_ & -> & _).
  - destruct (assertValidTransaction_inr _ _ _ Hv) as (Hc & _).
    rewrite Hc in Htx. symmetry in Htx. simpl.
    apply (connections_valid_update conns n (db c) _ t); try done.
    by destruct (close_loop_frame isVisible t key
                   (length (store (db c) !!! key)) (db c) false)
      as (_ & -> & _).
  - destruct (assertValidTransaction_inr _ _ _ Hv) as (Hc & _).
    rewrite Hc in Htx. symmetry in Htx. simpl.
    apply (connections_valid_update conns n (db c) _ t); try done.
    simpl.
    by destruct (close_loop_frame isVisible t key
                   (length (store (db c) !!! key)) (db c) false)
      as (_ & -> & _).
Qed.

Lemma step_connections_valid s o :
  connections_valid s → ids_below_next (sys_db s) →
  connections_valid (step unicodeLower isVisible s o).2.
Proof.
  destruct o as [[n command] args]. intros Hvalid Hbelow.
  pose proof (execCommand_Effect unicodeLower isVisible
    (mkConnection (sys_conns s !! n) (sys_db s)) command args) as Heff.
  apply (Effect_connections_valid (sys_conns s) n) in Heff; [|done..].
  unfold step. by destruct (execCommand _ _ _ _ _).
Qed.

(** Both invariants along a run that does not reach the end of the ids. *)
Lemma run_invariants ops s :
  connections_valid s → ids_below_next (sys_db s) →
  nextTransactionID (sys_db s) + N.of_nat (length ops) < 2 ^ 64 →
  connections_valid (run unicodeLower isVisible s ops) ∧
  ids_below_next (sys_db (run unicodeLower isVisible s ops)).
Proof.
  revert s. induction ops as [|[[n command] args] ops IH];
    intros s Hvalid Hbelow Hbound; [done|].
  simpl length in Hbound. simpl run.
  pose proof (execCommand_Effect unicodeLower isVisible
    (mkConnection (sys_conns s !! n) (sys_db s)) command args) as Heff.
  apply Effect_ids_below in Heff as [Hs' Hn']; [|done|simpl; lia].
  simpl in Hn'. rewrite <- step_db in Hs', Hn'.
  apply IH; [by apply step_connections_valid|done|lia].
Qed.

Lemma initial_invariants :
  connections_valid initial ∧ ids_below_next (sys_db initial).
Proof.
  split; [split|split].
  - intros n t Hn. simpl in Hn. by rewrite lookup_empty in Hn.
  - intros n m t u Hn. simpl in Hn. by rewrite lookup_empty in Hn.
  - simpl. lia.
  - intros i [x Hx]. simpl in Hx. by rewrite lookup_empty in Hx.
Qed.

(** X15.  After any run on the database made by [newDatabase] that is
    short of [2^64] calls, every connection that holds a transaction holds
    one that is in progress and has an id above 0; the table has, under
    that id, the copy made at [begin] (in progress, with empty read and
    write sets: the keys read and written are in the connection's
    transaction only); and no two connections hold the same id. *)
Theorem connections_stay_valid (ops : list Op) :
  N.of_nat (length ops) < 2 ^ 64 - 1 →
  connections_valid (run unicodeLower isVisible initial ops).
Proof.
  intros Hbound. destruct initial_invariants as [Hvalid Hbelow].
  apply run_invariants; [done..|]. simpl. lia.
Qed.

End RunInvariants.

Section Panics.

Variable unicodeLower : string → string.
Variable isVisible : Database → Transaction → Value → bool.

(** On a connection whose transaction, if it has one, passes the
    assertions, and with the counter above 0, a call does not fail an
    assertion of [assertValidTransaction]. *)
Lemma execCommand_expected c command args :
  (∀ t, tx c = Some t → assertValidTransaction (db c) (tx c) = inr t) →
  0 < nextTransactionID (db c) →
  expected_outcome (execCommand unicodeLower isVisible c command args).1.
Proof.
  intros Hvalid Hpos.
  assert (match assertValidTransaction (db c) (tx c) with
          | inl p => p = NilDereference
          | inr _ => True
          end) as Hassert.
  { destruct (tx c) as [t|] eqn:Htx; [by rewrite (Hvalid t)|done]. }
  destruct (decide (ToLower unicodeLower command = "begin")) as [Heq|Hbegin].
  { rewrite (execCommand_lowered _ _ _ command _ _ Heq eq_refl).
    destruct (tx c) eqn:Htx.
    - rewrite execCommand_begin, Htx. simpl. by left.
    - by rewrite execCommand_begin_free. }
  destruct (decide (ToLower unicodeLower command = "abort")) as [Heq|Habort].
  { rewrite (execCommand_lowered _ _ _ command _ _ Heq eq_refl).
    rewrite (execCommand_complete _ _ _ _ _ AbortedTransaction) by auto.
    destruct (assertValidTransaction (db c) (tx c)); [|done].
    subst. right. by left. }
  destruct (decide (ToLower unicodeLower command = "commit"))
    as [Heq|Hcommit].
  { rewrite (execCommand_lowered _ _ _ command _ _ Heq eq_refl).
    rewrite (execCommand_complete _ _ _ _ _ CommittedTransaction) by auto.
    destruct (assertValidTransaction (db c) (tx c)); [|done].
    subst. right. by left. }
  destruct (decide (ToLower unicodeLower command = "get")) as [Heq|Hget].
  { rewrite (execCommand_lowered _ _ _ command _ _ Heq eq_refl).
    rewrite execCommand_get.
    destruct (assertValidTransaction (db c) (tx c));
      [subst; right; by left|].
    destruct (args !! 0%nat); simpl; [|right; by right].
    by destruct (get_loop _ _ _ _ _). }
  unfold execCommand.
  rewrite !decide_False by done. unfold exec_write.
  case_decide; [|done].
  destruct (assertValidTransaction (db c) (tx c));
    [subst; right; by left|].
  destruct (args !! 0%nat); simpl; [|right; by right].
  destruct (close_loop _ _ _ _ _ _) as [d found].
  destruct (bool_decide _ && negb found); [done|].
  case_decide; [|done].
  destruct (args !! 1%nat); simpl; [done|right; by right].
Qed.

Lemma connections_valid_assert s n t :
  connections_valid s → sys_conns s !! n = Some t →
  assertValidTransaction (sys_db s) (Some t) = inr t.
Proof.
  intros [Hval _] Hn. destruct (Hval _ _ Hn) as (Hid & _ & Hlk).
  by apply (assertValidTransaction_pass _ _ (table_copy t)).
Qed.

Lemma outcomes_expected ops s :
  connections_valid s → ids_below_next (sys_db s) →
  nextTransactionID (sys_db s) + N.of_nat (length ops) < 2 ^ 64 →
  Forall expected_outcome (outcomes unicodeLower isVisible s ops).
Proof.
  revert s. induction ops as [|[[n command] args] ops IH];
    intros s Hvalid Hbelow Hbound; [by constructor|].
  simpl length in Hbound. simpl outcomes.
  pose proof (execCommand_Effect unicodeLower isVisible
    (mkConnection (sys_conns s !! n) (sys_db s)) command args) as Heff.
  apply Effect_ids_below in Heff as [Hs' Hn']; [|done|simpl; lia].
  simpl in Hn'. rewrite <- step_db in Hs', Hn'.
  constructor.
  - rewrite step_outcome. apply execCommand_expected; simpl.
    + intros t Ht. rewrite Ht. by apply (connections_valid_assert s n).
    + destruct Hbelow. lia.
  - apply IH; [by apply step_connections_valid|done|lia].
Qed.

(** X16.  In a run on the database made by [newDatabase] that is short of
    [2^64] calls, no call fails an assertion of [assertValidTransaction]
    ("valid id", "valid transacation", "in progress transaction"): a call
    returns, or panics because [begin] met a connection with a transaction,
    because another command met a connection without one, or because an
    argument is missing. *)
Theorem only_expected_panics (ops : list Op) :
  N.of_nat (length ops) < 2 ^ 64 - 1 →
  Forall expected_outcome (outcomes unicodeLower isVisible initial ops).
Proof.
  intros Hbound. destruct initial_invariants as [Hvalid Hbelow].
  apply outcomes_expected; [done..|]. simpl. lia.
Qed.

(** *** The table *)

Lemma Effect_table_kept c command c' i :
  Effect isVisible c command c' →
  is_Some (transactions (db c) !! i) → is_Some (transactions (db c') !! i).
Proof.
  destruct 1 as [| |? t ? Hv|? t ? Hv|? t key Hv|? t key Hv|? t key v Hv];
    simpl; try done.
  1-2: intros Hi; apply lookup_insert_is_Some'; by right.
  all: by destruct (close_loop_frame isVisible t key
                      (length (store (db c) !!! key)) (db c) false)
            as (_ & -> & _).
Qed.

(** X17.  No call removes a transaction from the table. *)
Theorem transactions_never_removed (c : Connection) (command : string)
    (args : list string) (i : N) :
  is_Some (transactions (db c) !! i) →
  is_Some (transactions (db (execCommand unicodeLower isVisible c command args).2) !! i).
Proof. apply Effect_table_kept with (ToLower unicodeLower command), execCommand_Effect. Qed.

Lemma Effect_completed_kept c command c' i u :
  Effect isVisible c command c' →
  transactions (db c) !! i = Some u → state u ≠ InProgressTransaction →
  i ≠ nextTransactionID (db c) →
  transactions (db c') !! i = Some u.
Proof.
  destruct 1 as [| |? t ? Hv|? t ? Hv|? t key Hv|? t key Hv|? t key v Hv];
    simpl; intros Hu Hst Hne; try done.
  - by rewrite lookup_insert_ne.
  - destruct (assertValidTransaction_inr _ _ _ Hv) as (_ & _ & t' & Hlk & Hip).
    rewrite lookup_insert_ne; [done|]. intros Heq.
    rewrite Heq, Hu in Hlk. by injection Hlk as <-.
  - by destruct (close_loop_frame isVisible t key
                   (length (store (db c) !!! key)) (db c) false)
         as (_ & -> & _).
  - by destruct (close_loop_frame isVisible t key
                   (length (store (db c) !!! key)) (db c) false)
         as (_ & -> & _).
  - by destruct (close_loop_frame isVisible t key
                   (length (store (db c) !!! key)) (db c) false)
         as (_ & -> & _).
Qed.

Lemma run_app s ops1 ops2 :
  run unicodeLower isVisible s (ops1 ++ ops2) =
  run unicodeLower isVisible (run unicodeLower isVisible s ops1) ops2.
Proof.
  revert s. induction ops1 as [|o ops1 IH]; intros s; [done|]. apply IH.
Qed.

Lemma run_completed_kept ops s i u :
  ids_below_next (sys_db s) →
  nextTransactionID (sys_db s) + N.of_nat (length ops) < 2 ^ 64 →
  transactions (sys_db s) !! i = Some u → state u ≠ InProgressTransaction →
  transactions (sys_db (run unicodeLower isVisible s ops)) !! i = Some u.
Proof.
  revert s. induction ops as [|[[n command] args] ops IH];
    intros s Hbelow Hbound Hu Hst; [done|].
  simpl length in Hbound. simpl run.
  pose proof (execCommand_Effect unicodeLower isVisible
    (mkConnection (sys_conns s !! n) (sys_db s)) command args) as Heff.
  pose proof Heff as Heff'.
  apply Effect_ids_below in Heff as [Hs' Hn']; [|done|simpl; lia].
  simpl in Hn'. rewrite <- step_db in Hs', Hn'.
  apply IH; [done|lia| |done].
  rewrite step_db. apply (Effect_completed_kept _ _ _ _ _ Heff'); [done..|].
  simpl. destruct Hbelow as [_ Hlt].
  assert (i < nextTransactionID (sys_db s)); [|lia].
  apply Hlt. by rewrite Hu.
Qed.

(** X18.  In a run on the database made by [newDatabase] that is short of
    [2^64] calls, a table entry that is committed or aborted at some point
    is the same entry at every later point: no call changes the state, or
    any other field, of a completed transaction. *)
Theorem completed_entries_are_final (ops1 ops2 : list Op) (i : N)
    (u : Transaction) :
  N.of_nat (length (ops1 ++ ops2)) < 2 ^ 64 - 1 →
  transactions (sys_db (run unicodeLower isVisible initial ops1)) !! i = Some u →
  state u ≠ InProgressTransaction →
  transactions (sys_db (run unicodeLower isVisible initial (ops1 ++ ops2))) !! i = Some u.
Proof.
  intros Hbound Hu Hst. rewrite length_app in Hbound. rewrite run_app.
  destruct (run_ids_below unicodeLower isVisible ops1 initial) as [Hbelow Hnext].
  { apply initial_invariants. }
  { simpl. lia. }
  simpl in Hnext. apply run_completed_kept; [done|lia|done..].
Qed.

(** *** The ends of the id range *)

(** X19.  On a connection without a transaction, a [begin] that finds the
    counter at 0 panics on the "valid id" assertion after it has
    registered the transaction: the connection holds a transaction with id
    0, the table has it under 0 and the counter is at 1. *)
Theorem begin_at_zero_panics (c : Connection) (args : list string) :
  tx c = None → nextTransactionID (db c) = 0 →
  let r := execCommand unicodeLower isVisible c "begin" args in
  r.1 = Panicked (AssertFailed "valid id") ∧
  (id <$> tx r.2) = Some 0 ∧
  (id <$> transactions (db r.2) !! 0) = Some 0 ∧
  nextTransactionID (db r.2) = 1.
Proof.
  intros Htx Hzero. cbv zeta. rewrite execCommand_begin, Htx. simpl.
  unfold assertValidTransaction. simpl. rewrite Hzero. simpl.
  split_and!; [done..| |done]. by rewrite lookup_insert_eq.
Qed.

(** X20.  On a connection without a transaction, a [begin] that finds the
    counter at [2^64 - 1] returns that id and leaves the counter at 0: the
    counter wraps around. *)
Theorem begin_at_last_id_wraps (c : Connection) (args : list string) :
  tx c = None → nextTransactionID (db c) = 2 ^ 64 - 1 →
  let r := execCommand unicodeLower isVisible c "begin" args in
  r.1 = Returned "18446744073709551615" None ∧
  nextTransactionID (db r.2) = 0.
Proof.
  intros Htx Hlast. cbv zeta.
  rewrite execCommand_begin_free by (done || (rewrite Hlast; lia)).
  simpl. rewrite Hlast. split; [|done].
  by vm_compute.
Qed.

End Panics.

(** ** The ids in the store *)

Section Registered.

Variable unicodeLower : string → string.
Variable isVisible : Database → Transaction → Value → bool.

Lemma close_loop_versions_registered t key n d found :
  0 < id t → is_Some (transactions d !! id t) →
  versions_registered d →
  versions_registered (close_loop isVisible t key n d found).1.
Proof.
  intros Hid Hreg Hd k i v Hv.
  destruct (close_loop_frame isVisible t key n d found) as (_ & Ht & _).
  rewrite Ht.
  destruct (close_loop_lookup isVisible t key n d found k i) as [Heq|Heq];
    rewrite Heq in Hv; [by apply (Hd k i)|].
  destruct ((store d !!! k) !! i) as [w|] eqn:Hw; [|done].
  injection Hv as <-. destruct (Hd k i w Hw) as (? & ? & _).
  split_and!; [done..|by right].
Qed.

Lemma Effect_versions_registered c command c' :
  Effect isVisible c command c' →
  versions_registered (db c) → versions_registered (db c').
Proof.
  intros Heff Hd. pose proof Heff as Hkept.
  destruct Heff as [| |? t ? Hv|? t ? Hv|? t key Hv|? t key Hv|? t key v Hv];
    [done|..].
  1-2: intros k i w Hw; destruct (Hd k i w Hw) as (Hs & Hc & He);
       split_and!; [done| |];
       [by apply (Effect_table_kept isVisible _ _ _ _ Hkept)|];
       destruct He as [He|He]; [by left|right];
       by apply (Effect_table_kept isVisible _ _ _ _ Hkept).
  1: done.
  all: destruct (assertValidTransaction_inr _ _ _ Hv)
         as (_ & Hid & t' & Hlk & _).
  all: assert (is_Some (transactions (db c) !! id t)) as Hreg
         by (by rewrite Hlk).
  1-2: by apply close_loop_versions_registered.
  pose proof (close_loop_versions_registered t key
    (length (store (db c) !!! key)) (db c) false Hid Hreg Hd) as Hloop.
  destruct (close_loop_frame isVisible t key
    (length (store (db c) !!! key)) (db c) false) as (_ & Ht & _).
  intros k i w. simpl. destruct (decide (key = k)) as [->|Hne].
  - rewrite lookup_total_insert_eq, lookup_app_Some.
    intros [Hw|[_ Hw]]; [by apply (Hloop k i)|].
    destruct (i - _)%nat; [|done]. injection Hw as <-. simpl.
    rewrite Ht. split_and!; [done..|by left].
  - rewrite lookup_total_insert_ne by done. by apply (Hloop k i).
Qed.

Lemma run_versions_registered ops s :
  versions_registered (sys_db s) →
  versions_registered (sys_db (run unicodeLower isVisible s ops)).
Proof.
  revert s. induction ops as [|[[n command] args] ops IH]; intros s Hs;
    [done|].
  simpl run. apply IH. rewrite step_db.
  apply (Effect_versions_registered
           (mkConnection (sys_conns s !! n) (sys_db s)) (ToLower unicodeLower command));
    [apply execCommand_Effect|done].
Qed.

(** X21.  After any run on the database made by [newDatabase], every
    version in the store was created by a transaction that is in the table
    and has an id above 0, and its end id is 0 or the id of a transaction
    in the table: looking up the creator or the closer of a version in the
    table never fails. *)
Theorem versions_have_registered_ids (ops : list Op) :
  versions_registered (sys_db (run unicodeLower isVisible initial ops)).
Proof.
  apply run_versions_registered. intros k i v Hv. simpl in Hv.
  by rewrite lookup_total_empty in Hv.
Qed.

(** X22.  After a [commit] or an [abort] in a valid, in-progress
    transaction the connection is free again: a [begin] on it returns the
    value of the counter, which the completion has not moved. *)
Theorem begin_after_complete (c : Connection) (t : Transaction)
    (command : string) (args args' : list string) :
  command = "commit" ∨ command = "abort" →
  assertValidTransaction (db c) (tx c) = inr t →
  0 < nextTransactionID (db c) →
  (execCommand unicodeLower isVisible
     (execCommand unicodeLower isVisible c command args).2 "begin" args').1 =
    Returned (Sprintf_d (nextTransactionID (db c))) None.
Proof.
  intros Hcmd Hvalid Hpos.
  assert (∃ s, execCommand unicodeLower isVisible c command args =
               (Returned "" None,
                mkConnection None (completeTransaction (db c) t s).2))
    as [s ->].
  { destruct Hcmd as [-> | ->];
      [exists CommittedTransaction|exists AbortedTransaction];
      rewrite (execCommand_complete _ _ _ _ _ _) by eauto; by rewrite Hvalid. }
  by rewrite execCommand_begin_free.
Qed.

End Registered.

(** ** The further properties on the example runs *)

(** The visibility rule of the specification reads the table and the view
    of the transaction only, and hides the versions a transaction has
    closed. *)
Lemma versionVisible_reads_table_only : reads_table_only versionVisible.
Proof.
  intros d d' t v Heq. unfold versionVisible, creatorVisible.
  by rewrite Heq.
Qed.

Lemma versionVisible_reads_view_only : reads_view_only versionVisible.
Proof.
  intros d t t' v Hid Hiso Hsnap. unfold versionVisible, creatorVisible.
  by rewrite Hid, Hiso, Hsnap.
Qed.

Lemma versionVisible_hides_own_closed : hides_own_closed versionVisible.
Proof.
  intros d t v Hpos Hend. unfold versionVisible.
  destruct (negb _); [done|].
  rewrite decide_False by lia. by rewrite decide_True.
Qed.

Lemma unknown_command_unimplemented_witness :
  (ToLower unicodeLower_id "SELECT" ∉ known_commands) ∧
  execCommand unicodeLower_id versionVisible second "SELECT" ["x"] =
    (Returned "" (Some "command unimplemented"), second).
Proof.
  assert (ToLower unicodeLower_id "SELECT" ∉ known_commands) as Hnot.
  { apply (bool_decide_unpack _). vm_compute. exact I. }
  split; [done|].
  by apply (unknown_command_unimplemented unicodeLower_id versionVisible second "SELECT").
Defined.

Lemma get_returns_newest_visible_witness :
  execCommand unicodeLower_id versionVisible written_twice "get" ["x"] =
    (Returned "2" None,
     (execCommand unicodeLower_id versionVisible written_twice "get" ["x"]).2) ∧
  ∃ t key j w,
    ["x"] !! 0%nat = Some key ∧
    assertValidTransaction (db written_twice) (tx written_twice) = inr t ∧
    (execCommand unicodeLower_id versionVisible written_twice "get" ["x"]).2 =
      mkConnection (Some (insert_readset key t)) (db written_twice) ∧
    (1 ≤ j)%nat ∧ (store (db written_twice) !!! key) !! j = Some w ∧
    value w = "2" ∧
    versionVisible (db written_twice) (insert_readset key t) w = true ∧
    ∀ j' w', (j < j')%nat →
      (store (db written_twice) !!! key) !! j' = Some w' →
      versionVisible (db written_twice) (insert_readset key t) w' = false.
Proof.
  split; [vm_compute; reflexivity|].
  apply (get_returns_newest_visible unicodeLower_id versionVisible written_twice).
  vm_compute; reflexivity.
Defined.

Lemma get_ignores_oldest_version_witness :
  (versionVisible (db written_once) (insert_readset "x" deleted_tx) <$>
     (store (db written_once) !!! "x") !! 0%nat) = Some true ∧
  execCommand unicodeLower_id versionVisible written_once "get" ["x"] =
    (Returned "" (Some "command unimplemented"),
     mkConnection (Some (insert_readset "x" deleted_tx)) (db written_once)).
Proof.
  split; [vm_compute; reflexivity|].
  apply (get_ignores_oldest_version unicodeLower_id versionVisible written_once deleted_tx
           "x" []); [vm_compute; reflexivity|].
  intros [|j] w Hj Hw; [lia|]. vm_compute in Hw. by destruct j.
Defined.

Lemma set_appends_version_witness :
  (execCommand unicodeLower_id versionVisible written_once "set" ["x"; "2"]).1 =
    Returned "2" None ∧
  store (db (execCommand unicodeLower_id versionVisible written_once "set" ["x"; "2"]).2)
    !!! "x" = [mkValue 1 1 "1"; mkValue 1 0 "2"].
Proof.
  destruct (set_appends_version unicodeLower_id versionVisible written_once deleted_tx
              "x" "2" []) as (Hout & _); [vm_compute; reflexivity|].
  split; [exact Hout|vm_compute; reflexivity].
Defined.

Lemma write_touches_only_its_key_witness :
  store (db (execCommand unicodeLower_id versionVisible written_once "DELETE" ["x"]).2) !! "y"
  = store (db written_once) !! "y" ∧
  store (db (execCommand unicodeLower_id versionVisible written_once "set" ["y"; "3"]).2)
    !! "x" = Some [mkValue 1 0 "1"].
Proof.
  destruct (write_touches_only_its_key unicodeLower_id versionVisible written_once
              "DELETE" ["x"] "y") as (Hy & _);
    [right; reflexivity|discriminate|].
  destruct (write_touches_only_its_key unicodeLower_id versionVisible written_once
              "set" ["y"; "3"] "x") as (Hx & _);
    [left; reflexivity|discriminate|].
  split; [exact Hy|]. rewrite Hx. vm_compute. reflexivity.
Defined.

Lemma write_closes_exactly_visible_witness :
  (store (db (execCommand unicodeLower_id versionVisible written_once "set" ["x"; "2"]).2)
     !!! "x") !! 0%nat = Some (mkValue 1 1 "1").
Proof.
  rewrite (write_closes_exactly_visible unicodeLower_id versionVisible written_once
             deleted_tx "set" "x" ["2"] 0 (mkValue 1 0 "1")
             versionVisible_reads_table_only);
    [|by left|vm_compute; reflexivity..].
  vm_compute. reflexivity.
Defined.

Lemma delete_succeeds_iff_visible_witness :
  (execCommand unicodeLower_id versionVisible written_once "delete" ["x"]).1 =
    Returned "" None ∧
  (execCommand unicodeLower_id versionVisible written_once "delete" ["y"]).1 =
    Returned "" (Some delete_failed_error).
Proof.
  split.
  - destruct (delete_succeeds_iff_visible unicodeLower_id versionVisible written_once
                deleted_tx "x" []) as [[_ Hout]|[Hnone _]];
      [vm_compute; reflexivity|exact Hout|].
    specialize (Hnone 0%nat (mkValue 1 0 "1")). vm_compute in Hnone.
    by specialize (Hnone eq_refl).
  - destruct (delete_succeeds_iff_visible unicodeLower_id versionVisible written_once
                deleted_tx "y" []) as [[(j & w & Hw & _) _]|[_ Hout]];
      [vm_compute; reflexivity| |exact Hout].
    vm_compute in Hw. by destruct j.
Defined.

Lemma delete_then_get_finds_nothing_witness :
  (execCommand unicodeLower_id versionVisible
     (execCommand unicodeLower_id versionVisible written_twice "delete" ["x"]).2
     "get" ["x"]).1 = Returned "" (Some "command unimplemented").
Proof.
  apply (delete_then_get_finds_nothing unicodeLower_id versionVisible written_twice
           deleted_tx "x" [] []
           versionVisible_reads_table_only versionVisible_reads_view_only
           versionVisible_hides_own_closed).
  vm_compute; reflexivity.
Defined.

Lemma overwrite_then_get_witness :
  (execCommand unicodeLower_id versionVisible
     (execCommand unicodeLower_id versionVisible
        (execCommand unicodeLower_id versionVisible started "set" ["x"; "1"]).2
        "set" ["x"; "2"]).2 "get" ["x"]).1 = Returned "2" None.
Proof.
  apply (overwrite_then_get unicodeLower_id versionVisible started started_tx "x" "1" "2"
           versionVisible_own).
  vm_compute; reflexivity.
Defined.

Lemma missing_key_panics_witness :
  execCommand unicodeLower_id versionVisible written_once "delete" [] =
    (Panicked IndexOutOfRange, written_once).
Proof.
  apply (missing_key_panics unicodeLower_id versionVisible written_once deleted_tx "delete");
    [|vm_compute; reflexivity].
  do 2 (apply elem_of_cons; right). apply elem_of_cons. by left.
Defined.

Lemma set_without_value_panics_witness :
  (execCommand unicodeLower_id versionVisible written_once "set" ["x"]).1 =
    Panicked IndexOutOfRange ∧
  store (db (execCommand unicodeLower_id versionVisible written_once "set" ["x"]).2) !!! "x"
    = [mkValue 1 1 "1"].
Proof.
  destruct (set_without_value_panics unicodeLower_id versionVisible written_once deleted_tx
              "x") as (Hout & _ & Hdb); [vm_compute; reflexivity|].
  split; [exact Hout|]. rewrite Hdb. vm_compute. reflexivity.
Defined.

Lemma must_on_missing_key_witness :
  mustExecCommand unicodeLower_id versionVisible started "delete" ["x"] =
    (inl (AssertEqFailed "unexpected error"), started) ∧
  (mustExecCommand unicodeLower_id versionVisible started "set" ["x"; "1"]).1 = inr "1".
Proof.
  destruct (must_on_missing_key unicodeLower_id versionVisible started started_tx "x" "1")
    as (_ & Hdelete & Hset); [vm_compute; reflexivity..|].
  split; [exact Hdelete|exact Hset].
Defined.

Lemma connections_stay_valid_witness :
  N.of_nat (length mixed_run) < 2 ^ 64 - 1 ∧
  connections_valid (run unicodeLower_id versionVisible initial mixed_run).
Proof.
  assert (N.of_nat (length mixed_run) < 2 ^ 64 - 1) as Hbound
    by (vm_compute; reflexivity).
  split; [exact Hbound|].
  exact (connections_stay_valid unicodeLower_id versionVisible mixed_run Hbound).
Defined.

Lemma only_expected_panics_witness :
  outcomes unicodeLower_id versionVisible initial mixed_run =
    [Returned "1" None; Returned "2" None; Returned "1" None;
     Returned "" (Some "command unimplemented"); Returned "" None;
     Panicked NilDereference; Panicked IndexOutOfRange; Returned "" None;
     Panicked NilDereference; Returned "3" None;
     Panicked (AssertEqFailed "no running transactions")] ∧
  Forall expected_outcome (outcomes unicodeLower_id versionVisible initial mixed_run).
Proof.
  split; [vm_compute; reflexivity|].
  apply (only_expected_panics unicodeLower_id versionVisible mixed_run).
  vm_compute; reflexivity.
Defined.

Lemma transactions_never_removed_witness :
  is_Some (transactions
             (db (execCommand unicodeLower_id versionVisible written_once "abort" []).2) !! 1).
Proof.
  apply (transactions_never_removed unicodeLower_id versionVisible written_once "abort" [] 1).
  vm_compute. eauto.
Defined.

Lemma completed_entries_are_final_witness :
  transactions (sys_db (run unicodeLower_id versionVisible initial mixed_run)) !! 1 =
    Some (mkTransaction 1 ReadCommittedIsolation CommittedTransaction
            ∅ {["x"]} ∅).
Proof.
  apply (completed_entries_are_final unicodeLower_id versionVisible
           (take 5 mixed_run) (drop 5 mixed_run) 1);
    [vm_compute; reflexivity|vm_compute; reflexivity|discriminate].
Defined.

Lemma begin_at_zero_panics_witness :
  (execCommand unicodeLower_id versionVisible (newConnection wrapped_database) "begin" []).1
  = Panicked (AssertFailed "valid id").
Proof.
  destruct (begin_at_zero_panics unicodeLower_id versionVisible
              (newConnection wrapped_database) []) as (Hout & _);
    [reflexivity..|exact Hout].
Defined.

Lemma begin_at_last_id_wraps_witness :
  nextTransactionID
    (db (execCommand unicodeLower_id versionVisible (newConnection last_id_database)
           "begin" []).2) = 0.
Proof.
  destruct (begin_at_last_id_wraps unicodeLower_id versionVisible
              (newConnection last_id_database) []) as (_ & Hnext);
    [reflexivity..|exact Hnext].
Defined.

Lemma begin_after_complete_witness :
  (execCommand unicodeLower_id versionVisible
     (execCommand unicodeLower_id versionVisible written_once "commit" []).2 "begin" []).1 =
    Returned "2" None.
Proof.
  rewrite (begin_after_complete unicodeLower_id versionVisible written_once deleted_tx
             "commit" [] []);
    [|by left|vm_compute; reflexivity|vm_compute; reflexivity].
  vm_compute. reflexivity.
Defined.
